(** * Microsoft Loop exporter: a shallow embedding of [main.mjs]

    The script drives a browser through Playwright.  The browser is an
    external collaborator, so the embedding is parametric in a [Driver]:
    a world type with one response function for every driver call the
    script issues.  The script itself (tree expansion, per-item export
    pipeline, run controller) is embedded as functions in a state and
    exception monad whose completions follow JavaScript: a statement
    completes normally, throws, or ends the process ([process.exit]). *)

From Stdlib Require Import String Ascii NArith ZArith List Lia.
From stdpp Require Import base option list gmap sets.

Local Open Scope N_scope.

(** ** JavaScript strings

    A JavaScript string is a sequence of UTF-16 code units.  Labels, menu
    texts, the workspace name and selectors are all such strings. *)

Abbreviation jsstring := (list N).

(** An ASCII literal as a JavaScript string. *)
Definition js (s : string) : jsstring :=
  map N_of_ascii (list_ascii_of_string s).

(** ECMAScript [WhiteSpace] and [LineTerminator] code points: what
    [String.prototype.trim] strips. All of them are single code units. *)
Definition is_js_space (c : N) : bool :=
  (c =? 9) || (c =? 10) || (c =? 11) || (c =? 12) || (c =? 13) ||
  (c =? 32) || (c =? 160) || (c =? 5760) ||
  ((8192 <=? c) && (c <=? 8202)) ||
  (c =? 8232) || (c =? 8233) || (c =? 8239) || (c =? 8287) ||
  (c =? 12288) || (c =? 65279).

Fixpoint trimStart (s : jsstring) : jsstring :=
  match s with
  | c :: s' => if is_js_space c then trimStart s' else s
  | [] => []
  end.

Definition trimEnd (s : jsstring) : jsstring := rev (trimStart (rev s)).

(** [s.trim()] *)
Definition trim (s : jsstring) : jsstring := trimEnd (trimStart s).

Fixpoint startsWith (s t : jsstring) {struct t} : bool :=
  match t, s with
  | [], _ => true
  | _ :: _, [] => false
  | a :: t', b :: s' => (a =? b) && startsWith s' t'
  end.

(** [s.includes(t)]: [t] occurs in [s] as a contiguous run of code units. *)
Fixpoint includes (s t : jsstring) : bool :=
  startsWith s t ||
  match s with
  | [] => false
  | _ :: s' => includes s' t
  end.

(** [x || ""] on a string operand: the empty string is falsy. *)
Definition or_empty (x : jsstring) : jsstring :=
  match x with
  | [] => []
  | _ => x
  end.

(** [el.textContent?.trim() || ""], the callback of [findPDFOption];
    [textContent] is [null] for some node kinds. *)
Definition trimmed_text (textContent : option jsstring) : jsstring :=
  match textContent with
  | None => []
  | Some t => or_empty (trim t)
  end.

(** [el.parentElement?.textContent?.trim() || ""], the callback of
    [expandTreeItems]; the outer option is [parentElement]. *)
Definition parent_label (parent : option (option jsstring)) : jsstring :=
  match parent with
  | None => []
  | Some textContent => trimmed_text textContent
  end.

(** The literal token searched for in the export menu. *)
Definition PDF : jsstring := js "PDF".

(** ** The automation driver

    Element handles, pages and the browser context are opaque references
    handed out by the driver. *)

Definition handle := nat.
Definition page := nat.
Definition context := nat.

(** What an awaited driver call can reject with, and what the script
    itself throws. *)
Inductive error :=
| TimeoutError                          (* a bounded wait elapsed *)
| DriverError (code : nat)              (* any other rejection: detached element, closed page, ... *)
| TypeError                             (* a value of the wrong shape was used *)
| WorkspaceNotFound (name : jsstring).  (* new Error(`Workspace '${workspaceName}' not found.`) *)

(** Selectors and the URL, as the script spells them. *)
Definition LOOP_URL : jsstring := js "https://loop.microsoft.com".
Definition dquote : jsstring := [34].
Definition SEL_TREEITEM : jsstring := js "*[role='treeitem']".
Definition SEL_SUBTREE : jsstring :=
  js "[data-testid^=" ++ dquote ++ js "PageSubtree_" ++ dquote ++ js "]".
Definition SEL_MORE_OPTIONS : jsstring :=
  js "button[aria-label='M" ++ [225] ++ js "s opciones']".
Definition SEL_MENUITEM : jsstring :=
  js "div[role=" ++ dquote ++ js "menuitem" ++ dquote ++ js "]".
Definition SEL_EXPAND_ICON : jsstring := js ".fui-TreeItemLayout__expandIcon".

(** [`div[aria-label*='${workspaceName}']`] *)
Definition workspace_selector (workspaceName : jsstring) : jsstring :=
  js "div[aria-label*='" ++ workspaceName ++ js "']".

(** Every call the script makes on the driver.  [timeout] is the
    [{ timeout: ms }] option, [None] when the call leaves the default. *)
Inductive call :=
| LaunchPersistentContext                                   (* chromium.launchPersistentContext(...) *)
| NewPage (c : context)                                     (* context.newPage() *)
| WaitForEventPage (c : context)                            (* context.waitForEvent("page") *)
| ContextClose (c : context)                                (* context.close() *)
| Goto (p : page) (url : jsstring)                          (* page.goto(url) *)
| WaitForSelector (p : page) (sel : jsstring) (timeout : option N)
| Query (p : page) (sel : jsstring)                         (* page.$(sel) *)
| QueryAll (p : page) (sel : jsstring)                      (* page.$$(sel) *)
| PageClick (p : page) (sel : jsstring)                     (* page.click(sel) *)
| WaitForTimeout (p : page) (ms : N)                        (* page.waitForTimeout(ms) *)
| HandleClick (h : handle)                                  (* item.click(), button.click(), exportButton.click() *)
| IconClick (h : handle) (label : jsstring)                 (* icon.click() in expandTreeItems; [label] is the loop's [label] *)
| TextContent (h : handle)                                  (* item.evaluate(el => el.textContent ...) *)
| ParentTextContent (h : handle)                            (* icon.evaluate(el => el.parentElement?.textContent ...) *)
| WaitForLoadState (popup : page)                           (* popup.waitForLoadState() *)
| InstallPrintHook (popup : page)                           (* popup.evaluate(() => { window.__printed = false; ... }) *)
| WaitForPrinted (popup : page) (timeout : option N)        (* popup.waitForFunction(() => window.__printed, ...) *)
| PageClose (popup : page).                                 (* popup.close() *)

(** What a call resolves to. *)
Inductive value :=
| VUndefined
| VContext (c : context)
| VPage (p : page)
| VHandle (h : option handle)                (* page.$: a handle or null *)
| VHandles (hs : list handle)                (* page.$$ *)
| VText (textContent : option jsstring)      (* the element's textContent *)
| VParentText (parent : option (option jsstring)).

Inductive reply :=
| Resolved (v : value)
| Rejected (e : error).

(** A driver: a world that answers calls and moves on. *)
Class Driver (W : Type) := { respond : call -> W -> reply * W }.

(** ** Console *)

Inductive level := Log | Warn | Err.

(** The script's console lines; numbers are the interpolated values. *)
Inductive message :=
| MsgChromeNotFound | MsgUsage | MsgScriptFinished
| MsgLaunching | MsgLaunched
| MsgNavigating (url : jsstring)
| MsgLooking (name : jsstring) | MsgOpening (name : jsstring) | MsgWorkspaceOpened
| MsgWaitingTreeItems | MsgFoundTreeItems (n : nat)
| MsgClickingItem (n : nat) | MsgWaitingMoreOptions | MsgMenuOpened
| MsgSkipNoMenu (n : nat)      (* Skipping item n: Options menu not available. *)
| MsgSkipNoPDF (n : nat)       (* Skipping item n: No PDF export option found. *)
| MsgClickingPDF | MsgHandlingPopup
| MsgExported (n : nat)
| MsgErrorExporting (n : nat) (e : error)
| MsgPrintTriggered (n : nat)
| MsgPrintNotTriggered (n : nat)
| MsgExpandingTree
| MsgExpanding (label : jsstring)
| MsgErrorExpanding (label : jsstring) (e : error)
| MsgExpandingNested | MsgAllExpanded
| MsgNewPage
| MsgProcessing (i n : nat)
| MsgAllProcessed | MsgSuccessCount (n : nat) | MsgSkippedCount (n : nat)
| MsgUnexpected (e : error)
| MsgContextClosed.

(** Everything observable, in the order it happens. *)
Inductive event :=
| Console (l : level) (m : message)
| Call (c : call).

(** ** Completions and the script monad *)

Inductive completion (A : Type) :=
| Normal (a : A)        (* the statement ran to its end, or returned [a] *)
| Throw (e : error)     (* an exception (a rejected await) is propagating *)
| Exit (code : Z).      (* process.exit(code): the process is gone *)
Arguments Normal {A} a.
Arguments Throw {A} e.
Arguments Exit {A} code.

(** The value [exportItemToPDF] returns: the strings "exported" and "skipped". *)
Inductive outcome := exported | skipped.

Declare Scope script_scope.

Section Script.
Context {W : Type} `{!Driver W}.

(** The script's state: the browser world, what has been observed so far,
    and the module-level [expandedItemsKeys] set. *)
Record state := State {
  world : W;
  trace : list event;
  expandedItemsKeys : gset jsstring;
}.

(** A script fragment.  [None] only means that the recursion budget of
    [expandTreeItems] ran out before the fragment finished. *)
Definition M (A : Type) : Type := state -> option (completion A * state).

Definition ret {A} (a : A) : M A := fun s => Some (Normal a, s).

(** Sequencing: the continuation runs only after a normal completion. *)
Definition bind {A B} (m : M A) (k : A -> M B) : M B := fun s =>
  match m s with
  | None => None
  | Some (Normal a, s') => k a s'
  | Some (Throw e, s') => Some (Throw e, s')
  | Some (Exit c, s') => Some (Exit c, s')
  end.

Notation "x ← y ; z" := (bind y (fun x => z))
  (at level 20, y at level 100, z at level 200, only parsing) : script_scope.
Notation "' x ← y ; z" := (bind y (fun x => z))
  (at level 20, x pattern, y at level 100, z at level 200, only parsing) : script_scope.
Notation "x ;; z" := (bind x (fun _ => z))
  (at level 100, z at level 200, only parsing, right associativity) : script_scope.
Local Open Scope script_scope.

(** [throw e] *)
Definition throw {A} (e : error) : M A := fun s => Some (Throw e, s).

(** [process.exit(code)]: ends the process on the spot; no handler and no
    [finally] block of the script runs after it. *)
Definition process_exit {A} (code : Z) : M A := fun s => Some (Exit code, s).

Definition out_of_fuel {A} : M A := fun _ => None.

(** [try { body } catch (e) { handler e }] *)
Definition try_catch {A} (body : M A) (handler : error -> M A) : M A := fun s =>
  match body s with
  | Some (Throw e, s') => handler e s'
  | r => r
  end.

(** [try { body } finally { fin }]: [fin] runs when [body] completes
    normally or throws, and an abrupt completion of [fin] replaces
    [body]'s. *)
Definition try_finally {A} (body : M A) (fin : M unit) : M A := fun s =>
  match body s with
  | None => None
  | Some (Exit c, s') => Some (Exit c, s')
  | Some (r, s') =>
      match fin s' with
      | None => None
      | Some (Normal _, s'') => Some (r, s'')
      | Some (Throw e, s'') => Some (Throw e, s'')
      | Some (Exit c, s'') => Some (Exit c, s'')
      end
  end.

(** [await Promise.all([a, b])]: both operations are started, [a] first;
    the result is the pair of their values, or a rejection when either
    rejects. *)
Definition promise_all2 {A B} (a : M A) (b : M B) : M (A * B) := fun s =>
  match a s with
  | None => None
  | Some (Exit c, s1) => Some (Exit c, s1)
  | Some (ra, s1) =>
      match b s1 with
      | None => None
      | Some (Exit c, s2) => Some (Exit c, s2)
      | Some (rb, s2) =>
          match ra, rb with
          | Normal x, Normal y => Some (Normal (x, y), s2)
          | Throw e, _ => Some (Throw e, s2)
          | _, Throw e => Some (Throw e, s2)
          | Exit c, _ | _, Exit c => Some (Exit c, s2)
          end
      end
  end.

Definition emit (e : event) (s : state) : state :=
  State (world s) (trace s ++ [e]) (expandedItemsKeys s).

(** [console.log], [console.warn], [console.error] *)
Definition console (l : level) (m : message) : M unit := fun s =>
  Some (Normal tt, emit (Console l m) s).

(** [await] on a driver call. *)
Definition perform (c : call) : M value := fun s =>
  let '(r, w') := respond c (world s) in
  let s' := State w' (trace s ++ [Call c]) (expandedItemsKeys s) in
  match r with
  | Resolved v => Some (Normal v, s')
  | Rejected e => Some (Throw e, s')
  end.

(** [expandedItemsKeys.has(label)] and [expandedItemsKeys.add(label)] *)
Definition memo_has (label : jsstring) : M bool := fun s =>
  Some (Normal (bool_decide (label ∈ expandedItemsKeys s)), s).

Definition memo_add (label : jsstring) : M unit := fun s =>
  Some (Normal tt, State (world s) (trace s) ({[label]} ∪ expandedItemsKeys s)).

(** Reading a resolved value at the shape the script uses it at. *)
Definition as_context (v : value) : M context :=
  match v with VContext c => ret c | _ => throw TypeError end.
Definition as_page (v : value) : M page :=
  match v with VPage p => ret p | _ => throw TypeError end.
Definition as_handle (v : value) : M (option handle) :=
  match v with VHandle h => ret h | _ => throw TypeError end.
Definition as_handles (v : value) : M (list handle) :=
  match v with VHandles hs => ret hs | _ => throw TypeError end.
Definition as_text (v : value) : M (option jsstring) :=
  match v with VText t => ret t | _ => throw TypeError end.
Definition as_parent_text (v : value) : M (option (option jsstring)) :=
  match v with VParentText t => ret t | _ => throw TypeError end.

(** [await] on a driver call whose value is used at shape [shape]. *)
Definition await {A} (c : call) (shape : value -> M A) : M A :=
  v ← perform c; shape v.

(** *** Browser functions *)

Definition launchChrome : M context :=
  console Log MsgLaunching;;
  context ← await LaunchPersistentContext as_context;
  console Log MsgLaunched;;
  ret context.

Definition openWorkspace (workspaceName : jsstring) (page : page) : M unit :=
  let selector := workspace_selector workspaceName in
  console Log (MsgNavigating LOOP_URL);;
  perform (Goto page LOOP_URL);;
  console Log (MsgLooking workspaceName);;
  perform (WaitForSelector page selector None);;
  button ← await (Query page selector) as_handle;
  match button with
  | None => throw (WorkspaceNotFound workspaceName)
  | Some button =>
      console Log (MsgOpening workspaceName);;
      perform (HandleClick button);;
      console Log MsgWorkspaceOpened
  end.

Definition getTreeItems (page : page) : M (list handle) :=
  console Log MsgWaitingTreeItems;;
  perform (WaitForSelector page SEL_TREEITEM None);;
  perform (WaitForSelector page SEL_SUBTREE None);;
  perform (WaitForTimeout page 5000);;
  items ← await (QueryAll page SEL_TREEITEM) as_handles;
  console Log (MsgFoundTreeItems (length items));;
  ret items.

(** The [for (const item of menuItems)] loop of [findPDFOption]. *)
Fixpoint findPDFOption_loop (menuItems : list handle) : M (option handle) :=
  match menuItems with
  | [] => ret None
  | item :: rest =>
      textContent ← await (TextContent item) as_text;
      let text := trimmed_text textContent in
      if includes text PDF then ret (Some item)
      else findPDFOption_loop rest
  end.

Definition findPDFOption (page : page) : M (option handle) :=
  menuItems ← await (QueryAll page SEL_MENUITEM) as_handles;
  findPDFOption_loop menuItems.

Definition handlePopupPrint (popup : page) (index : nat) : M unit :=
  perform (WaitForLoadState popup);;
  perform (InstallPrintHook popup);;
  try_catch
    (perform (WaitForPrinted popup (Some 10000));;
     console Log (MsgPrintTriggered index))
    (fun _ => console Warn (MsgPrintNotTriggered index)).

(** [exportItemToPDF], lines 422-431: the [try] block around the popup. *)
Definition exportItemToPDF_print (popup : page) (index : nat) : M outcome :=
  try_catch
    (console Log MsgHandlingPopup;;
     handlePopupPrint popup (index + 1);;
     perform (PageClose popup);;
     console Log (MsgExported (index + 1));;
     ret exported)
    (fun error =>
     console Err (MsgErrorExporting (index + 1) error);;
     ret skipped).

(** [exportItemToPDF], lines 410-431: from the option search on. *)
Definition exportItemToPDF_option (context : context) (page : page)
    (index : nat) : M outcome :=
  exportButton ← findPDFOption page;
  match exportButton with
  | None =>
      console Warn (MsgSkipNoPDF (index + 1));;
      ret skipped
  | Some exportButton =>
      console Log MsgClickingPDF;;
      '(popup, _) ← promise_all2
        (await (WaitForEventPage context) as_page)
        (perform (HandleClick exportButton));
      exportItemToPDF_print popup index
  end.

(** [exportItemToPDF], lines 399-408: the [try] block that opens the menu;
    [false] stands for the [return "skipped"] of its [catch]. *)
Definition exportItemToPDF_menu (page : page) (index : nat) : M bool :=
  try_catch
    (console Log MsgWaitingMoreOptions;;
     perform (WaitForSelector page SEL_MORE_OPTIONS (Some 10000));;
     perform (PageClick page SEL_MORE_OPTIONS);;
     perform (WaitForSelector page SEL_MENUITEM None);;
     console Log MsgMenuOpened;;
     ret true)
    (fun _ =>
     console Warn (MsgSkipNoMenu (index + 1));;
     ret false).

Definition exportItemToPDF (context : context) (page : page)
    (item : handle) (index : nat) : M outcome :=
  console Log (MsgClickingItem (index + 1));;
  perform (HandleClick item);;
  menu ← exportItemToPDF_menu page index;
  if menu then exportItemToPDF_option context page index
  else ret skipped.

(** *** Tree expansion *)

(** The [for (const icon of expandIcons)] loop; [expanded] is the flag the
    loop sets, and the result is its value when the loop ends. *)
Fixpoint expandTreeItems_loop (page : page) (expandIcons : list handle)
    (expanded : bool) : M bool :=
  match expandIcons with
  | [] => ret expanded
  | icon :: rest =>
      parent ← await (ParentTextContent icon) as_parent_text;
      let label := parent_label parent in
      has ← memo_has label;
      if has then expandTreeItems_loop page rest expanded
      else
        console Log (MsgExpanding label);;
        try_catch
          (perform (IconClick icon label);;
           perform (WaitForTimeout page 500);;
           ret tt)
          (fun err => console Err (MsgErrorExpanding label err));;
        memo_add label;;
        expandTreeItems_loop page rest true
  end.

(** One pass of [expandTreeItems]: everything before [if (expanded)]. *)
Definition expandTreeItems_pass (page : page) : M bool :=
  console Log MsgExpandingTree;;
  perform (WaitForSelector page SEL_EXPAND_ICON (Some 10000));;
  expandIcons ← await (QueryAll page SEL_EXPAND_ICON) as_handles;
  expandTreeItems_loop page expandIcons false.

(** [expandTreeItems] calls itself; [fuel] bounds the number of passes. *)
Fixpoint expandTreeItems (fuel : nat) (page : page) : M unit :=
  match fuel with
  | O => out_of_fuel
  | S fuel =>
      expanded ← expandTreeItems_pass page;
      if expanded then
        console Log MsgExpandingNested;;
        expandTreeItems fuel page
      else
        console Log MsgAllExpanded
  end.

(** *** Main *)

(** The [for (let i = 0; i < items.length; i++)] loop of [run], entered
    with [todo] iterations left at index [i]; the result is the pair of
    counters [(successCount, skippedCount)]. *)
Fixpoint run_loop (context : context) (page : page) (items : list handle)
    (todo i successCount skippedCount : nat) : M (nat * nat) :=
  match todo with
  | O => ret (successCount, skippedCount)
  | S todo =>
      console Log (MsgProcessing (i + 1) (length items));;
      result ← match items !! i with
               | Some item => exportItemToPDF context page item i
               | None => throw TypeError
               end;
      let '(successCount, skippedCount) :=
        match result with
        | exported => (S successCount, skippedCount)
        | skipped => (successCount, S skippedCount)
        end in
      perform (WaitForTimeout page 1000);;
      run_loop context page items todo (S i) successCount skippedCount
  end.

(** The body of the [try] block of [run]. *)
Definition run_body (fuel : nat) (workspaceName : jsstring)
    (context : context) : M unit :=
  page ← await (NewPage context) as_page;
  console Log MsgNewPage;;
  openWorkspace workspaceName page;;
  expandTreeItems fuel page;;
  items ← getTreeItems page;
  '(successCount, skippedCount) ← run_loop context page items (length items) 0 0 0;
  console Log MsgAllProcessed;;
  console Log (MsgSuccessCount successCount);;
  console Log (MsgSkippedCount skippedCount).

Definition run (fuel : nat) (workspaceName : jsstring) : M unit :=
  context ← launchChrome;
  try_finally
    (try_catch
       (run_body fuel workspaceName context)
       (fun err =>
        console Err (MsgUnexpected err);;
        process_exit 1))
    (perform (ContextClose context);;
     console Log MsgContextClosed).

(** The module from top to bottom: the two start-up checks, then
    [await run()].  [chrome_found] is [CHROME_PATH && fs.existsSync(CHROME_PATH)]
    and [argv2] is [process.argv[2]]. *)
Definition script (fuel : nat) (chrome_found : bool) (argv2 : option jsstring) : M unit :=
  if negb chrome_found then
    console Err MsgChromeNotFound;;
    process_exit 1
  else
    match argv2 with
    | None | Some [] =>
        console Err MsgUsage;;
        process_exit 1
    | Some workspaceName =>
        run fuel workspaceName;;
        console Log MsgScriptFinished
    end.

End Script.

(** ** A scripted driver

    A world that is a list of replies: each call consumes the next one,
    whatever the call is.  Any sequence of per-step outcomes can be written
    down this way. *)

Definition tape := list reply.

#[export] Instance tape_driver : Driver tape := {|
  respond _ w :=
    match w with
    | r :: w' => (r, w')
    | [] => (Rejected TimeoutError, [])
    end
|}.

Definition start (w : tape) : state (W := tape) := State w [] ∅.

(** All labels the tape still holds lie in [U]. *)
Definition tape_labels_in (U : gset jsstring) (w : tape) : Prop :=
  Forall (fun r => forall parent,
            r = Resolved (VParentText parent) -> parent_label parent ∈ U) w.

Definition ok : reply := Resolved VUndefined.

(** ** The selector language, as far as the workspace selector needs it

    The driver reads a selector as CSS.  This is the reading of a quoted
    string by the CSS tokenizer (CSS Syntax Level 3, "consume a string
    token"), on UTF-16 code units: the string ends at the first unescaped
    occurrence of its quote; a backslash starts an escape (hexadecimal, a
    line continuation, or the next character taken literally); an unescaped
    newline or the end of the input inside the string leaves no closed
    string.  CR, FF and CR LF count as newlines.  The replacement of NUL
    and of lone surrogates in the input is not modelled.  Of the selector
    language itself only the one attribute selector the script builds is
    read; what a workspace name can turn the selector into beyond that
    (selector lists, further attribute conditions, combinators) is left
    unread rather than guessed. *)






















Local Close Scope N_scope.

(** ** Observations on a run *)

Definition completion_of {W A} (r : option (completion A * state (W := W)))
    : option (completion A) :=
  match r with
  | Some (c, _) => Some c
  | None => None
  end.

Definition trace_of {W A} (r : option (completion A * state (W := W)))
    : list event :=
  match r with
  | Some (_, s) => trace s
  | None => []
  end.

(** The driver calls in a trace. *)
Fixpoint calls (evs : list event) : list call :=
  match evs with
  | [] => []
  | Call c :: evs => c :: calls evs
  | Console _ _ :: evs => calls evs
  end.

(** The console lines in a trace. *)
Fixpoint console_lines (evs : list event) : list (level * message) :=
  match evs with
  | [] => []
  | Console l m :: evs => (l, m) :: console_lines evs
  | Call _ :: evs => console_lines evs
  end.

(** How many times [context.close()] was called. *)
Fixpoint context_closes (evs : list event) : nat :=
  match evs with
  | [] => 0
  | Call (ContextClose _) :: evs => S (context_closes evs)
  | _ :: evs => context_closes evs
  end.

(** The labels of the expand affordances that were clicked, in order. *)
Fixpoint icon_clicks (evs : list event) : list jsstring :=
  match evs with
  | [] => []
  | Call (IconClick _ label) :: evs => label :: icon_clicks evs
  | _ :: evs => icon_clicks evs
  end.

(** The items handed to the export pipeline, in order: the pipeline
    announces itself with "Clicking item n" and then clicks its item. *)
Fixpoint pipeline_items (evs : list event) : list handle :=
  match evs with
  | [] => []
  | Console Log (MsgClickingItem _) :: ((Call (HandleClick item) :: _) as evs) =>
      item :: pipeline_items evs
  | _ :: evs => pipeline_items evs
  end.

(** Not the line with which the export pipeline announces an item. *)
Definition not_item_start (e : event) : bool :=
  match e with
  | Console _ (MsgClickingItem _) => false
  | _ => true
  end.

(** Not a click on an expand affordance. *)
Definition not_icon_click (e : event) : bool :=
  match e with
  | Call (IconClick _ _) => false
  | _ => true
  end.

(** Not closing the browser context. *)
Definition not_context_close (e : event) : bool :=
  match e with
  | Call (ContextClose _) => false
  | _ => true
  end.

(** Every finished run of a script fragment relates the state before to
    the state after by [R]. *)
Definition steps {W A} (R : state (W := W) -> state (W := W) -> Prop)
    (m : M (W := W) A) : Prop :=
  forall s r s', m s = Some (r, s') -> R s s'.

(** From [s] to [s'] events were only appended, and only ones that pass
    [p]. *)
Definition appends {W} (p : event -> bool) (s s' : state (W := W)) : Prop :=
  exists evs, trace s' = trace s ++ evs /\ forallb p evs = true.

(** A script fragment only appends events, and only ones that pass [p]. *)
Definition emits {W A} (p : event -> bool) (m : M (W := W) A) : Prop :=
  steps (appends p) m.

(** A script fragment always finishes, and not by ending the process: it
    returns or throws. *)
Definition completes {W A} (m : M (W := W) A) : Prop :=
  forall s, exists r s', m s = Some (r, s') /\ forall c, r <> Exit c.

(** The clicks recorded so far are on pairwise distinct labels, all of them
    in the memo set. *)
Definition clicks_recorded {W} (s : state (W := W)) : Prop :=
  NoDup (icon_clicks (trace s))
  /\ forall label, label ∈ icon_clicks (trace s) -> label ∈ expandedItemsKeys s.

(** A step that keeps the clicks recorded. *)
Definition keeps_clicks_recorded {W} (s s' : state (W := W)) : Prop :=
  clicks_recorded s -> clicks_recorded s'.

(** What one run of the expansion loop or of a pass achieves, from [s] to
    [s'], for an invariant [Inv] of the world and a property [L] of labels:
    it only appends events, the labels it clicks are distinct, new to the
    memo set and satisfy [L], and the memo set grows by exactly those
    labels. *)
Record expansion_step {W : Type} (Inv : W -> Prop) (L : jsstring -> Prop)
    (s s' : state (W := W)) (evs : list event) : Prop := {
  step_trace : trace s' = trace s ++ evs;
  step_nodup : NoDup (icon_clicks evs);
  step_fresh : forall l, l ∈ icon_clicks evs -> l ∉ expandedItemsKeys s;
  step_memo : expandedItemsKeys s' = expandedItemsKeys s ∪ list_to_set (icon_clicks evs);
  step_labels : Forall L (icon_clicks evs);
  step_inv : Inv (world s');
}.

(** ** The export menu, as the specification describes it *)

(** A rendered menu: its entries in document order, each with its text
    content. *)
Definition menu := list (handle * option jsstring).

(** An entry is the PDF option when its trimmed text contains the token
    [PDF], code unit for code unit. *)
Definition is_PDF_entry (textContent : option jsstring) : Prop :=
  exists t pre post, textContent = Some t /\ trim t = pre ++ PDF ++ post.

(** The search's answer: the first entry that is a PDF option, or nothing
    when no entry is. *)
Definition first_PDF_entry (m : menu) (r : option handle) : Prop :=
  match r with
  | Some h =>
      exists i t, m !! i = Some (h, t) /\ is_PDF_entry t /\
        forall j e, (j < i)%nat -> m !! j = Some e -> ~ is_PDF_entry e.2
  | None => forall e, e ∈ m -> ~ is_PDF_entry e.2
  end.

Section Rendering.
Context {W : Type} `{!Driver W}.

(** The world shows the entries' text one after the other. *)
Fixpoint reads (w : W) (m : menu) : Prop :=
  match m with
  | [] => True
  | (h, t) :: m' =>
      exists w', respond (TextContent h) w = (Resolved (VText t), w') /\ reads w' m'
  end.

(** The same, with the world the last reading leaves. *)
Fixpoint reads_to (w : W) (m : menu) (w_end : W) : Prop :=
  match m with
  | [] => w_end = w
  | (h, t) :: m' =>
      exists w', respond (TextContent h) w = (Resolved (VText t), w')
                 /\ reads_to w' m' w_end
  end.

(** The world renders menu [m] on [page]. *)
Definition renders (page : page) (w : W) (m : menu) : Prop :=
  exists w', respond (QueryAll page SEL_MENUITEM) w = (Resolved (VHandles m.*1), w')
             /\ reads w' m.

End Rendering.

(** ** Scenarios for the scripted driver *)

Definition resolved_text (t : string) : reply := Resolved (VText (Some (js t))).
Definition resolved_label (t : string) : reply :=
  Resolved (VParentText (Some (Some (js t)))).

(** Start-up up to the opened workspace: context 0, page 1, workspace
    button 10. *)
Definition tape_open : tape :=
  [Resolved (VContext 0%nat); Resolved (VPage 1%nat);
   ok; ok; Resolved (VHandle (Some 10%nat)); ok].

(** Expansion of a tree with one collapsed node "A" (icon 20): a pass that
    clicks it and a pass that finds nothing new. *)
Definition tape_expand_A : tape :=
  [ok; Resolved (VHandles [20%nat]); resolved_label " A "; ok; ok;
   ok; Resolved (VHandles [20%nat]); resolved_label "A"].

(** [getTreeItems] finding [items]. *)
Definition tape_items (items : list handle) : tape :=
  [ok; ok; ok; Resolved (VHandles items)].

(** The item is selected, the menu opens and shows "Delete" and
    " Export to PDF " (handles 40 and 41). *)
Definition tape_menu : tape :=
  [ok; ok; ok; ok; Resolved (VHandles [40%nat; 41%nat]);
   resolved_text "Delete"; resolved_text "  Export to PDF "].

(** A whole item that exports through [popup], up to the pause after it. *)
Definition tape_item_ok (popup : page) : tape :=
  tape_menu ++ [Resolved (VPage popup); ok; ok; ok; ok; ok; ok].

(** An item whose options menu never shows up, with the pause after it. *)
Definition tape_item_no_menu : tape := [ok; Rejected TimeoutError; ok].

(** Scenario: workspace "Demo", two items, both exportable. *)
Definition tape_demo : tape :=
  tape_open ++ tape_expand_A ++ tape_items [30%nat; 31%nat]
  ++ tape_item_ok 2 ++ tape_item_ok 3 ++ [ok].

(** Scenario: the second item has no options menu. *)
Definition tape_demo_no_menu : tape :=
  tape_open ++ tape_expand_A ++ tape_items [30%nat; 31%nat]
  ++ tape_item_ok 2 ++ tape_item_no_menu ++ [ok].

(** Scenario: the PDF option is clicked but no popup opens, so
    [context.waitForEvent("page")] times out. *)
Definition tape_popup_timeout : tape :=
  tape_menu ++ [Rejected TimeoutError; ok].

Definition tape_demo_popup_timeout : tape :=
  tape_open ++ tape_expand_A ++ tape_items [30%nat; 31%nat]
  ++ tape_popup_timeout ++ tape_item_ok 3 ++ [ok].

(** Scenario: no workspace entry matches the name, so the wait for the
    workspace selector times out. *)
Definition tape_workspace_missing : tape :=
  [Resolved (VContext 0%nat); Resolved (VPage 1%nat); ok; Rejected TimeoutError; ok].

(** Scenario: a workspace whose pages have no nested pages, so no expand
    affordance ever appears; its two pages are exportable. *)
Definition tape_flat_workspace : tape :=
  tape_open ++ [Rejected TimeoutError] ++ tape_items [30%nat; 31%nat]
  ++ tape_item_ok 2 ++ tape_item_ok 3 ++ [ok].

(** The item is selected and the menu opens, but shows no PDF entry. *)
Definition tape_menu_no_pdf : tape :=
  [ok; ok; ok; ok; Resolved (VHandles [40; 41]);
   resolved_text "Delete"; resolved_text " Export as pdf "].

(** The popup opens and loads, the print signal never comes, the popup
    closes. *)
Definition tape_print_timeout : tape := [ok; ok; Rejected TimeoutError; ok].

(** A whole item whose print signal never comes: the menu, the popup
    [popup], the timeout, and the pause after the item. *)
Definition tape_item_print_timeout (popup : page) : tape :=
  tape_menu ++ [Resolved (VPage popup); ok] ++ tape_print_timeout ++ [ok].

(** ** A simulated navigation tree

    The tree as the sidebar lists it: the nodes in document order, each
    with its text, its depth and whether it is expanded.  The children of a
    node are the deeper nodes that follow it. *)

Record nav_node := NavNode {
  nav_text : jsstring;
  nav_depth : nat;
  nav_expanded : bool;
}.

Definition nav_tree := list nav_node.

(** The indices of the nodes that are shown, from index [i] on: a node is
    hidden while it lies below a collapsed node of depth [hidden_below]. *)
Fixpoint nav_visible_from (hidden_below : option nat) (i : nat) (t : nav_tree)
    : list handle :=
  match t with
  | [] => []
  | n :: t' =>
      if match hidden_below with
         | Some d => d <? nav_depth n
         | None => false
         end
      then nav_visible_from hidden_below (S i) t'
      else i :: nav_visible_from
                  (if nav_expanded n then None else Some (nav_depth n)) (S i) t'
  end.

Definition nav_visible (t : nav_tree) : list handle := nav_visible_from None 0 t.

(** A node has an expand affordance when it has children. *)
Definition nav_is_branch (t : nav_tree) (i : nat) : bool :=
  match t !! i, t !! S i with
  | Some n, Some child => nav_depth n <? nav_depth child
  | _, _ => false
  end.

Definition nav_expand_icons (t : nav_tree) : list handle :=
  List.filter (nav_is_branch t) (nav_visible t).

(** Clicking the affordance of node [i] expands or collapses it. *)
Definition nav_toggle (i : nat) (t : nav_tree) : nav_tree :=
  alter (fun n => NavNode (nav_text n) (nav_depth n) (negb (nav_expanded n))) i t.

#[export] Instance nav_driver : Driver nav_tree := {|
  respond c t :=
    match c with
    | WaitForSelector _ sel _ =>
        if bool_decide (sel = SEL_EXPAND_ICON)
           && bool_decide (nav_expand_icons t = [])
        then (Rejected TimeoutError, t)
        else (ok, t)
    | QueryAll _ sel =>
        if bool_decide (sel = SEL_EXPAND_ICON)
        then (Resolved (VHandles (nav_expand_icons t)), t)
        else (Resolved (VHandles (nav_visible t)), t)
    | ParentTextContent h =>
        match t !! h with
        | Some n => (Resolved (VParentText (Some (Some (nav_text n)))), t)
        | None => (Rejected (DriverError 0), t)
        end
    | IconClick h _ => (ok, nav_toggle h t)
    | _ => (ok, t)
    end
|}.

(** The label the script computes for a node. *)
Definition nav_label (n : nav_node) : jsstring :=
  parent_label (Some (Some (nav_text n))).

Definition nav_labels (t : nav_tree) : gset jsstring :=
  list_to_set (nav_label <$> t).

(** All labels of the tree lie in [U]. *)
Definition nav_labels_in (U : gset jsstring) (t : nav_tree) : Prop :=
  Forall (fun n => nav_label n ∈ U) t.

Definition nav (text : string) (depth : nat) : nav_node :=
  NavNode (js text) depth false.

(** Two pages, nothing nested. *)
Definition nav_flat : nav_tree := [nav "A" 0; nav "B" 0].

(** "A" holds "A.1", which holds "A.1.1"; "B" is a leaf.  All collapsed. *)
Definition nav_nested : nav_tree :=
  [nav "A" 0; nav " A.1 " 1; nav "A.1.1" 2; nav "B" 0].

(** ** What the log says about the items *)

(** How many items the log reports as exported: the lines "Exported item n". *)
Fixpoint exported_lines (evs : list event) : nat :=
  match evs with
  | [] => 0
  | Console Log (MsgExported _) :: evs => S (exported_lines evs)
  | _ :: evs => exported_lines evs
  end.

(** How many items the log reports as skipped: the two "Skipping item n"
    warnings and the "Error exporting item n" error. *)
Fixpoint skipped_lines (evs : list event) : nat :=
  match evs with
  | [] => 0
  | Console Warn (MsgSkipNoMenu _) :: evs
  | Console Warn (MsgSkipNoPDF _) :: evs
  | Console Err (MsgErrorExporting _ _) :: evs => S (skipped_lines evs)
  | _ :: evs => skipped_lines evs
  end.

(** Neither of those lines. *)
Definition not_item_report (e : event) : bool :=
  match e with
  | Console Log (MsgExported _)
  | Console Warn (MsgSkipNoMenu _)
  | Console Warn (MsgSkipNoPDF _)
  | Console Err (MsgErrorExporting _ _) => false
  | _ => true
  end.

(** The calls of [exportItemToPDF] that no [try] block guards: the click
    on the item, the menu query and the reading of its entries, and the
    two operations awaited together for the popup. *)
Definition unguarded_call (c : call) : bool :=
  match c with
  | HandleClick _ | QueryAll _ _ | TextContent _ | WaitForEventPage _ => true
  | _ => false
  end.

(** Neither a click on an expand affordance nor closing the context. *)
Definition not_expansion_or_close (e : event) : bool :=
  not_icon_click e && not_context_close e.

(** From [s] to [s'] the memo set was left alone, no expand affordance was
    clicked and the context was not closed. *)
Definition leaves_expansion_alone {W} (s s' : state (W := W)) : Prop :=
  expandedItemsKeys s' = expandedItemsKeys s
  /\ appends not_expansion_or_close s s'.

(** From [s] to [s'] an invariant [Inv] of the browser world was kept and
    the memo set was left alone. *)
Definition keeps_invariant {W} (Inv : W -> Prop) (s s' : state (W := W)) : Prop :=
  (Inv (world s) -> Inv (world s'))
  /\ expandedItemsKeys s' = expandedItemsKeys s.

(** The query for the menu entries or the reading of an entry's text. *)
Definition menu_read (e : event) : bool :=
  match e with
  | Call (QueryAll _ _) | Call (TextContent _) => true
  | _ => false
  end.

(** * Properties *)

Set Warnings "-clear-no-such-hyp".

(** ** JavaScript strings *)

Lemma or_empty_id (x : jsstring) : or_empty x = x.
Proof. destruct x; reflexivity. Qed.

Lemma startsWith_spec (s t : jsstring) :
  startsWith s t = true <-> exists post, s = t ++ post.
Proof.
  revert s. induction t as [|a t IH]; intros s; cbn.
  - split; [intros _; exists s; reflexivity | reflexivity].
  - destruct s as [|b s].
    + split; [discriminate | intros [post Hpost]; discriminate].
    + rewrite andb_true_iff, N.eqb_eq, IH. split.
      * intros [-> [post ->]]. exists post. reflexivity.
      * intros [post Hpost]. injection Hpost as -> ->. eauto.
Qed.

(** [includes] is the substring test, code unit for code unit. *)
Lemma includes_spec (s t : jsstring) :
  includes s t = true <-> exists pre post, s = pre ++ t ++ post.
Proof.
  induction s as [|c s IH]; cbn [includes]; rewrite orb_true_iff, startsWith_spec.
  - split.
    + intros [[post Hpost] | Hf]; [|discriminate]. exists [], post. exact Hpost.
    + intros [pre [post Hs]]. left. destruct pre; [|discriminate].
      exists post. exact Hs.
  - rewrite IH. split.
    + intros [[post Hpost] | [pre [post Hs]]].
      * exists [], post. exact Hpost.
      * exists (c :: pre), post. rewrite Hs. reflexivity.
    + intros [pre [post Hs]]. destruct pre as [|c' pre].
      * left. exists post. exact Hs.
      * right. injection Hs as _ Hs. eauto.
Qed.

(** The match is case-sensitive, and blind to surrounding white space. *)
Example includes_PDF_examples :
  includes (trimmed_text (Some (js "  Export to PDF "))) PDF = true
  /\ includes (trimmed_text (Some (js "Export to pdf"))) PDF = false
  /\ includes (trimmed_text (Some (js "Export to Pdf"))) PDF = false
  /\ includes (trimmed_text None) PDF = false
  /\ trimmed_text (Some (js "  Export to PDF ")) = js "Export to PDF"
  /\ trimmed_text (Some ([160; 9; 10] ++ js "x" ++ [8232; 65279])%N) = js "x".
Proof. vm_compute. tauto. Qed.

Lemma is_PDF_entry_includes (textContent : option jsstring) :
  is_PDF_entry textContent <-> includes (trimmed_text textContent) PDF = true.
Proof.
  rewrite includes_spec. unfold is_PDF_entry. destruct textContent as [t|]; cbn.
  - rewrite or_empty_id. split.
    + intros (t' & pre & post & [= <-] & Hm). eauto.
    + intros (pre & post & Hm). eauto 6.
  - split.
    + intros (t' & pre & post & Hn & _). discriminate.
    + intros (pre & post & Hm). destruct pre; discriminate.
Qed.

(** ** Running the monad one step at a time *)

Section Running.
Context {W : Type} `{!Driver W}.
Implicit Types (s : state (W := W)) (w : W).

Lemma bind_unfold {A B} (m : M A) (k : A -> M B) s :
  bind m k s =
  match m s with
  | None => None
  | Some (Normal a, s') => k a s'
  | Some (Throw e, s') => Some (Throw e, s')
  | Some (Exit c, s') => Some (Exit c, s')
  end.
Proof. reflexivity. Qed.

Lemma try_catch_unfold {A} (body : M A) handler s :
  try_catch body handler s =
  match body s with
  | Some (Throw e, s') => handler e s'
  | r => r
  end.
Proof. reflexivity. Qed.

Lemma console_run l m s :
  console l m s = Some (Normal tt, emit (Console l m) s).
Proof. reflexivity. Qed.

Lemma perform_resolved c s v w' :
  respond c (world s) = (Resolved v, w') ->
  perform c s
  = Some (Normal v, State w' (trace s ++ [Call c]) (expandedItemsKeys s)).
Proof. intros Hr. unfold perform. rewrite Hr. reflexivity. Qed.

Lemma perform_rejected {c s} e w' :
  respond c (world s) = (Rejected e, w') ->
  perform c s
  = Some (Throw e, State w' (trace s ++ [Call c]) (expandedItemsKeys s)).
Proof. intros Hr. unfold perform. rewrite Hr. reflexivity. Qed.

Lemma await_unfold {A} c (shape : value -> M A) s :
  await c shape s = bind (perform c) shape s.
Proof. reflexivity. Qed.

Lemma memo_has_run label s :
  memo_has label s = Some (Normal (bool_decide (label ∈ expandedItemsKeys s)), s).
Proof. reflexivity. Qed.

Lemma memo_add_run label s :
  memo_add label s
  = Some (Normal tt, State (world s) (trace s) ({[label]} ∪ expandedItemsKeys s)).
Proof. reflexivity. Qed.

Lemma ret_run {A} (a : A) s : ret a s = Some (Normal a, s).
Proof. reflexivity. Qed.

End Running.

(** Push the evaluation of the head of a script as far as the known facts
    about the driver allow. *)
Ltac mred :=
  cbv beta iota zeta; unfold emit; cbn [world trace expandedItemsKeys].
Ltac mstep :=
  first
    [ rewrite bind_unfold
    | rewrite try_catch_unfold
    | rewrite await_unfold
    | rewrite console_run
    | rewrite ret_run
    | rewrite memo_has_run
    | rewrite memo_add_run
    | erewrite perform_resolved by eassumption
    | erewrite perform_rejected by eassumption ];
  mred.
Ltac mrun := repeat mstep.

(** ** Scenarios *)

(** Two exportable items: both are exported, in order, and the context is
    closed once. *)
Example scenario_two_items :
  let r := script 5 true (Some (js "Demo")) (start tape_demo) in
  completion_of r = Some (Normal tt)
  /\ pipeline_items (trace_of r) = [30; 31]
  /\ context_closes (trace_of r) = 1
  /\ In (Log, MsgSuccessCount 2) (console_lines (trace_of r))
  /\ In (Log, MsgSkippedCount 0) (console_lines (trace_of r)).
Proof. vm_compute. tauto. Qed.

(** The second item has no options menu: one exported, one skipped. *)
Example scenario_no_menu :
  let r := script 5 true (Some (js "Demo")) (start tape_demo_no_menu) in
  completion_of r = Some (Normal tt)
  /\ In (Warn, MsgSkipNoMenu 2) (console_lines (trace_of r))
  /\ In (Log, MsgSuccessCount 1) (console_lines (trace_of r))
  /\ In (Log, MsgSkippedCount 1) (console_lines (trace_of r)).
Proof. vm_compute. tauto. Qed.

(** The start-up checks. *)
Example scenario_no_argument :
  completion_of (script 5 true None (start tape_demo)) = Some (Exit 1)
  /\ completion_of (script 5 true (Some []) (start tape_demo)) = Some (Exit 1)
  /\ completion_of (script 5 false (Some (js "Demo")) (start tape_demo)) = Some (Exit 1).
Proof. vm_compute. tauto. Qed.

Section ScriptFacts.
Context {W : Type} `{!Driver W}.
Implicit Types (s : state (W := W)) (w : W).

(** ** Tree expansion: a failing click *)

(** The [try] block around the click and the settle pause never throws. *)
Lemma expand_click_guarded page icon label s :
  exists s' evs,
    try_catch
      (bind (perform (IconClick icon label))
         (fun _ => bind (perform (WaitForTimeout page 500)) (fun _ => ret tt)))
      (fun err => console Err (MsgErrorExpanding label err)) s
    = Some (Normal tt, s')
    /\ trace s' = trace s ++ evs
    /\ expandedItemsKeys s' = expandedItemsKeys s.
Proof.
  destruct (respond (IconClick icon label) (world s)) as [[v1|e1] w1] eqn:H1; mrun.
  - destruct (respond (WaitForTimeout page 500) w1) as [[v2|e2] w2] eqn:H2; mrun;
      rewrite <- ?app_assoc; eexists _, _; (split; [reflexivity|]);
      split; reflexivity.
  - rewrite <- ?app_assoc. eexists _, _. split; [reflexivity|]. split; reflexivity.
Qed.

(** The loop over the affordances always comes to an end.  It keeps what is
    in [expandedItemsKeys], never unsets the flag, and the only exception
    that leaves it is one of reading a label: no click and no settle pause
    ever makes it throw. *)
Lemma expandTreeItems_loop_finishes page icons expanded s :
  exists r s' evs,
    expandTreeItems_loop page icons expanded s = Some (r, s')
    /\ trace s' = trace s ++ evs
    /\ expandedItemsKeys s ⊆ expandedItemsKeys s'
    /\ (forall c, r <> Exit c)
    /\ (forall b, r = Normal b -> expanded = true -> b = true)
    /\ (forall e, r = Throw e ->
        exists icon, icon ∈ icons /\ last evs = Some (Call (ParentTextContent icon))).
Proof.
  revert expanded s. induction icons as [|icon rest IH]; intros expanded s.
  - exists (Normal expanded), s, []. cbn [expandTreeItems_loop]. rewrite ret_run, app_nil_r.
    split; [reflexivity|]. split; [reflexivity|]. split; [reflexivity|].
    split; [intros c; discriminate|]. split; [intros b [= <-] ->; reflexivity|].
    intros e; discriminate.
  - cbn [expandTreeItems_loop].
    destruct (respond (ParentTextContent icon) (world s)) as [[v|e] w1] eqn:Hlabel; mrun.
    2:{ eexists _, _, [_]. split; [reflexivity|]. split; [reflexivity|].
        split; [reflexivity|]. split; [intros c; discriminate|].
        split; [intros b; discriminate|]. intros e' _. exists icon.
        split; [left | reflexivity]. }
    destruct v as [| | | | | |parent];
      try (cbn [as_parent_text]; unfold throw;
           eexists _, _, [_]; (split; [reflexivity|]); (split; [reflexivity|]);
           (split; [reflexivity|]); (split; [intros ?; discriminate|]);
           (split; [intros ?; discriminate|]); intros ? _; exists icon;
           split; [left | reflexivity]).
    cbn [as_parent_text]. mrun.
    case_bool_decide as Hmemo; mred.
    + destruct (IH expanded (State w1 (trace s ++ [Call (ParentTextContent icon)])
                               (expandedItemsKeys s)))
        as (r & s' & evs & Hrun & Ht & Hsub & Hexit & Hflag & Hthrow).
      exists r, s', (Call (ParentTextContent icon) :: evs).
      split; [exact Hrun|]. cbn [trace] in Ht. rewrite <- app_assoc in Ht.
      split; [exact Ht|]. split; [exact Hsub|]. split; [exact Hexit|].
      split; [exact Hflag|]. intros e He.
      destruct (Hthrow e He) as (icon' & Hin & Hlast). exists icon'.
      split; [right; exact Hin|]. rewrite last_cons, Hlast. reflexivity.
    + destruct (expand_click_guarded page icon (parent_label parent)
                  (State w1 (trace s ++ [Call (ParentTextContent icon);
                                         Console Log (MsgExpanding (parent_label parent))])
                     (expandedItemsKeys s)))
        as (s2 & evs2 & Hblock & Ht2 & Hm2).
      rewrite bind_unfold, console_run. mred. rewrite <- app_assoc. cbn [app].
      rewrite bind_unfold, Hblock. mrun.
      destruct (IH true (State (world s2) (trace s2)
                           ({[parent_label parent]} ∪ expandedItemsKeys s2)))
        as (r & s' & evs & Hrun & Ht & Hsub & Hexit & Hflag & Hthrow).
      exists r, s',
        (Call (ParentTextContent icon)
         :: Console Log (MsgExpanding (parent_label parent)) :: evs2 ++ evs).
      split; [exact Hrun|]. cbn [trace expandedItemsKeys] in *.
      split; [rewrite Ht, Ht2, <- !app_assoc; reflexivity|].
      split; [rewrite Hm2 in Hsub; set_solver|]. split; [exact Hexit|].
      split; [intros b Hb _; exact (Hflag b Hb eq_refl)|]. intros e He.
      destruct (Hthrow e He) as (icon' & Hin & Hlast). exists icon'.
      split; [right; exact Hin|].
      rewrite !last_cons, last_app, Hlast. reflexivity.
Qed.

(** C6: when the click on an expand affordance is rejected, the rejection is
    caught inside the iteration and logged with [console.error], the label
    still enters [expandedItemsKeys] and stays there, and the loop goes on
    with the remaining affordances with the flag [expanded] set.  The loop
    comes to an end: it returns [true], or it throws because the label of a
    later affordance could not be read; the failed click itself never
    leaves the loop.  When the affordance is the last one the pass returns
    [true] right after the error line. *)
Theorem expand_click_failure_contained page icon rest expanded s parent e w1 w2 :
  respond (ParentTextContent icon) (world s) = (Resolved (VParentText parent), w1) ->
  parent_label parent ∉ expandedItemsKeys s ->
  respond (IconClick icon (parent_label parent)) w1 = (Rejected e, w2) ->
  let label := parent_label parent in
  let s1 := State w2
              (trace s ++ [Call (ParentTextContent icon);
                           Console Log (MsgExpanding label);
                           Call (IconClick icon label);
                           Console Err (MsgErrorExpanding label e)])
              ({[label]} ∪ expandedItemsKeys s) in
  exists r s' evs,
    expandTreeItems_loop page (icon :: rest) expanded s = Some (r, s')
    /\ expandTreeItems_loop page rest true s1 = Some (r, s')
    /\ trace s' = trace s1 ++ evs
    /\ label ∈ expandedItemsKeys s'
    /\ (r = Normal true
        \/ exists e' icon',
             r = Throw e' /\ icon' ∈ rest
             /\ last evs = Some (Call (ParentTextContent icon')))
    /\ (rest = [] -> r = Normal true /\ s' = s1).
Proof.
  intros Hlabel Hfresh Hclick label s1.
  destruct (expandTreeItems_loop_finishes page rest true s1)
    as (r & s' & evs & Hrun & Ht & Hsub & Hexit & Hflag & Hthrow).
  exists r, s', evs. split; [|split; [exact Hrun|]].
  - rewrite <- Hrun. cbn [expandTreeItems_loop]. mrun. cbn [as_parent_text]. mrun.
    rewrite bool_decide_eq_false_2 by exact Hfresh. mrun.
    unfold s1, label. rewrite <- !app_assoc. reflexivity.
  - split; [exact Ht|]. split; [apply Hsub; unfold s1; cbn; set_solver|]. split.
    + destruct r as [b|e'|c].
      * left. rewrite (Hflag b eq_refl eq_refl). reflexivity.
      * right. destruct (Hthrow e' eq_refl) as (icon' & Hin & Hlast).
        exists e', icon'. split; [reflexivity|]. split; assumption.
      * destruct (Hexit c eq_refl).
    + intros ->. cbn [expandTreeItems_loop] in Hrun. rewrite ret_run in Hrun.
      injection Hrun as <- <-. split; reflexivity.
Qed.

(** ** The PDF option search *)

Lemma first_PDF_entry_here h t (m : menu) :
  is_PDF_entry t -> first_PDF_entry ((h, t) :: m) (Some h).
Proof.
  intros Ht. exists 0, t. split; [reflexivity|]. split; [exact Ht|].
  intros j e Hj. lia.
Qed.

Lemma first_PDF_entry_later h t (m : menu) r :
  ~ is_PDF_entry t -> first_PDF_entry m r -> first_PDF_entry ((h, t) :: m) r.
Proof.
  intros Ht. destruct r as [h'|]; cbn.
  - intros (i & t' & Hi & Ht' & Hfirst). exists (S i), t'.
    split; [exact Hi|]. split; [exact Ht'|].
    intros [|j] e Hj He.
    + injection He as <-. exact Ht.
    + apply (Hfirst j e); [lia | exact He].
  - intros Hnone e He. apply elem_of_cons in He as [-> | He]; [exact Ht | auto].
Qed.

(** On a world that shows the entries of [m], the loop of [findPDFOption]
    returns the first PDF entry of [m] and changes nothing but the world
    and the trace. *)
Lemma findPDFOption_loop_reads (m : menu) s :
  reads (world s) m ->
  exists r s', findPDFOption_loop m.*1 s = Some (Normal r, s')
               /\ first_PDF_entry m r
               /\ expandedItemsKeys s' = expandedItemsKeys s.
Proof.
  revert s. induction m as [|[h t] m IH]; intros s Hreads.
  - exists None, s. split; [reflexivity|]. split; [|reflexivity].
    intros e He. apply elem_of_nil in He. destruct He.
  - destruct Hreads as (w' & Hresp & Hreads).
    cbn [fmap list_fmap fst findPDFOption_loop]. mrun. cbn [as_text]. mrun.
    destruct (includes (trimmed_text t) PDF) eqn:Hinc.
    + eexists _, _. split; [reflexivity|]. split; [|reflexivity].
      apply first_PDF_entry_here, is_PDF_entry_includes, Hinc.
    + edestruct IH as (r & s' & Hrun & Hfirst & Hmemo); [|rewrite Hrun].
      { exact Hreads. }
      exists r, s'. split; [reflexivity|]. split; [|exact Hmemo].
      apply first_PDF_entry_later; [|exact Hfirst].
      rewrite is_PDF_entry_includes, Hinc. discriminate.
Qed.

Lemma findPDFOption_renders page (m : menu) s :
  renders page (world s) m ->
  exists r s', findPDFOption page s = Some (Normal r, s')
               /\ first_PDF_entry m r
               /\ expandedItemsKeys s' = expandedItemsKeys s.
Proof.
  intros (w' & Hquery & Hreads). unfold findPDFOption. mrun. cbn [as_handles].
  apply (findPDFOption_loop_reads m (State w' _ _)). exact Hreads.
Qed.

Lemma first_PDF_entry_none (m : menu) r :
  (forall e, e ∈ m -> ~ is_PDF_entry e.2) -> first_PDF_entry m r -> r = None.
Proof.
  intros Hnone. destruct r as [h|]; [|reflexivity].
  intros (i & t & Hi & Ht & _). exfalso.
  apply (Hnone (h, t)); [|exact Ht]. eapply list_elem_of_lookup_2, Hi.
Qed.

(** C9: on every rendered menu, [findPDFOption] answers with the first entry,
    in menu order, whose trimmed text contains the token PDF as a
    case-sensitive substring; and when the item is selected, its menu opens
    and no entry matches, [exportItemToPDF] returns "skipped" right after
    warning that no PDF export option was found. *)
Theorem findPDFOption_first_match context page item index (m : menu) s
    v1 v2 v3 v4 w1 w2 w3 w4 :
  respond (HandleClick item) (world s) = (Resolved v1, w1) ->
  respond (WaitForSelector page SEL_MORE_OPTIONS (Some 10000%N)) w1 = (Resolved v2, w2) ->
  respond (PageClick page SEL_MORE_OPTIONS) w2 = (Resolved v3, w3) ->
  respond (WaitForSelector page SEL_MENUITEM None) w3 = (Resolved v4, w4) ->
  renders page w4 m ->
  (forall s4, world s4 = w4 ->
     exists r s', findPDFOption page s4 = Some (Normal r, s')
                  /\ first_PDF_entry m r)
  /\ ((forall e, e ∈ m -> ~ is_PDF_entry e.2) ->
      exists s', exportItemToPDF context page item index s
                 = Some (Normal skipped, emit (Console Warn (MsgSkipNoPDF (index + 1))) s')).
Proof.
  intros Hclick Hwait Hmore Hmenu Hrenders. split.
  - intros s4 <-.
    destruct (findPDFOption_renders page m s4 Hrenders) as (r & s' & Hrun & Hfirst & _).
    eauto.
  - intros Hnone. unfold exportItemToPDF, exportItemToPDF_menu. mrun.
    unfold exportItemToPDF_option. mstep.
    lazymatch goal with
    | |- context [findPDFOption page ?s4] =>
        destruct (findPDFOption_renders page m s4 Hrenders)
          as (r & s' & Hrun & Hfirst & _)
    end.
    rewrite Hrun.
    apply first_PDF_entry_none in Hfirst as ->; [|exact Hnone].
    mrun. eexists. reflexivity.
Qed.

(** ** Tree expansion: what a pass does *)

Lemma icon_clicks_app (evs1 evs2 : list event) :
  icon_clicks (evs1 ++ evs2) = icon_clicks evs1 ++ icon_clicks evs2.
Proof.
  induction evs1 as [|[l m|c] evs1 IH]; cbn; [reflexivity | exact IH |].
  destruct c; cbn; rewrite ?IH; reflexivity.
Qed.

Section ExpansionInvariant.
(** An invariant [Inv] of the browser world under every call, and a
    property [L] of the labels the world shows while [Inv] holds. *)
Variable Inv : W -> Prop.
Variable L : jsstring -> Prop.

Local Abbreviation expansion_step := (expansion_step Inv L).

Lemma expansion_step_refl s : Inv (world s) -> expansion_step s s [].
Proof.
  intros HI. split; cbn.
  - rewrite app_nil_r. reflexivity.
  - constructor.
  - intros l Hl. apply elem_of_nil in Hl. destruct Hl.
  - set_solver.
  - constructor.
  - exact HI.
Qed.

Lemma expansion_step_trans s1 s2 s3 evs1 evs2 :
  expansion_step s1 s2 evs1 -> expansion_step s2 s3 evs2 ->
  expansion_step s1 s3 (evs1 ++ evs2).
Proof.
  intros [Ht1 Hn1 Hf1 Hm1 Hl1 Hi1] [Ht2 Hn2 Hf2 Hm2 Hl2 Hi2].
  split; rewrite ?icon_clicks_app.
  - rewrite Ht2, Ht1, app_assoc. reflexivity.
  - apply NoDup_app. split; [exact Hn1|]. split; [|exact Hn2].
    intros l Hl1' Hl2'. apply Hf2 in Hl2'. apply Hl2'. rewrite Hm1.
    apply elem_of_union_r, elem_of_list_to_set, Hl1'.
  - intros l Hl. apply elem_of_app in Hl as [Hl | Hl]; [auto|].
    apply Hf2 in Hl. rewrite Hm1 in Hl. set_solver.
  - rewrite Hm2, Hm1, list_to_set_app_L. set_solver.
  - apply Forall_app. split; assumption.
  - exact Hi2.
Qed.

(** A step that clicks nothing. *)
Lemma expansion_step_quiet s w evs :
  Inv w -> icon_clicks evs = [] ->
  expansion_step s (State w (trace s ++ evs) (expandedItemsKeys s)) evs.
Proof.
  intros HI Hq. split; cbn; rewrite ?Hq.
  - reflexivity.
  - constructor.
  - intros l Hl. apply elem_of_nil in Hl. destruct Hl.
  - set_solver.
  - constructor.
  - exact HI.
Qed.

(** A step that clicks [label] once and records it. *)
Lemma expansion_step_click s w evs label :
  Inv w -> L label -> label ∉ expandedItemsKeys s -> icon_clicks evs = [label] ->
  expansion_step s (State w (trace s ++ evs) ({[label]} ∪ expandedItemsKeys s)) evs.
Proof.
  intros HI HL Hfresh Hq. split; cbn; rewrite ?Hq.
  - reflexivity.
  - apply NoDup_singleton.
  - intros l Hl. apply list_elem_of_singleton in Hl as ->. exact Hfresh.
  - set_solver.
  - constructor; [exact HL | constructor].
  - exact HI.
Qed.

Hypothesis Inv_respond : forall c w, Inv w -> Inv (respond c w).2.
Hypothesis Inv_label : forall icon w parent w',
  Inv w -> respond (ParentTextContent icon) w = (Resolved (VParentText parent), w') ->
  L (parent_label parent).

Lemma Inv_respond_eq c w r w' : Inv w -> respond c w = (r, w') -> Inv w'.
Proof. intros HI Hr. pose proof (Inv_respond c w HI) as HI'. rewrite Hr in HI'. exact HI'. Qed.

(** The loop always finishes, by returning the flag or by a rejection that
    propagates; it returns [true] exactly when the flag was already set or
    something was clicked. *)
Lemma expandTreeItems_loop_spec page icons expanded s :
  Inv (world s) ->
  exists r s' evs,
    expandTreeItems_loop page icons expanded s = Some (r, s')
    /\ expansion_step s s' evs
    /\ (forall c, r <> Exit c)
    /\ (forall b, r = Normal b ->
          b = expanded || negb (bool_decide (icon_clicks evs = []))).
Proof.
  revert expanded s. induction icons as [|icon rest IH]; intros expanded s HI.
  - exists (Normal expanded), s, []. split; [reflexivity|].
    split; [apply expansion_step_refl, HI|]. split; [discriminate|].
    intros b [= <-]. cbn. rewrite orb_false_r. reflexivity.
  - cbn [expandTreeItems_loop].
    destruct (respond (ParentTextContent icon) (world s)) as [[v|e] w1] eqn:Hlabel.
    2:{ mrun. eexists _, _, [_]. split; [reflexivity|].
        split; [apply expansion_step_quiet; [eapply Inv_respond_eq; [|eassumption]; assumption | reflexivity]|].
        split; [intros ?; discriminate | intros ? [=]]. }
    assert (HI1 : Inv w1) by (eapply Inv_respond_eq; [exact HI | eassumption]).
    mrun.
    destruct v as [| | | | |t|parent]; cbn [as_parent_text];
      try (unfold throw; eexists _, _, [_]; split; [reflexivity|];
           split; [apply expansion_step_quiet; [exact HI1 | reflexivity]|];
           split; [intros ?; discriminate | intros ? [=]]).
    mrun. set (label := parent_label parent).
    assert (HL : L label) by exact (Inv_label _ _ _ _ HI Hlabel).
    destruct (decide (label ∈ expandedItemsKeys s)) as [Hin | Hfresh].
    + rewrite bool_decide_eq_true_2 by exact Hin.
      lazymatch goal with
      | |- context [expandTreeItems_loop page rest expanded ?s1] =>
          destruct (IH expanded s1 HI1) as (r & s' & evs & Hrun & Hstep & Hexit & Hflag)
      end.
      exists r, s', ([Call (ParentTextContent icon)] ++ evs).
      split; [exact Hrun|]. split; [|split; [exact Hexit|]].
      * eapply expansion_step_trans; [|exact Hstep].
        apply expansion_step_quiet; [exact HI1 | reflexivity].
      * intros b Hb. rewrite icon_clicks_app. exact (Hflag b Hb).
    + rewrite bool_decide_eq_false_2 by exact Hfresh. mrun.
      assert (Hnext : forall w2 evs2, Inv w2 -> icon_clicks evs2 = [label] ->
        exists r s' evs,
          expandTreeItems_loop page rest true
            (State w2 (trace s ++ evs2) ({[label]} ∪ expandedItemsKeys s))
          = Some (r, s')
          /\ expansion_step s s' evs
          /\ (forall c, r <> Exit c)
          /\ (forall b, r = Normal b ->
                b = expanded || negb (bool_decide (icon_clicks evs = [])))).
      { intros w2 evs2 HI2 Hq.
        destruct (IH true (State w2 (trace s ++ evs2) ({[label]} ∪ expandedItemsKeys s)) HI2)
          as (r & s' & evs & Hrun & Hstep & Hexit & Hflag).
        exists r, s', (evs2 ++ evs). split; [exact Hrun|].
        split; [|split; [exact Hexit|]].
        - eapply expansion_step_trans; [|exact Hstep].
          apply expansion_step_click; assumption.
        - intros b Hb. rewrite (Hflag b Hb), icon_clicks_app, Hq. cbn.
          rewrite orb_true_r. reflexivity. }
      destruct (respond (IconClick icon label) w1) as [[v2|e2] w2] eqn:Hclick.
      * assert (HI2 : Inv w2) by (eapply Inv_respond_eq; [exact HI1 | eassumption]).
        destruct (respond (WaitForTimeout page 500) w2) as [[v3|e3] w3] eqn:Hsettle;
          mrun; rewrite <- !app_assoc;
          (apply Hnext; [eapply Inv_respond_eq; [|eassumption]; assumption | reflexivity]).
      * mrun. rewrite <- !app_assoc.
        apply Hnext; [eapply Inv_respond_eq; [|eassumption]; assumption | reflexivity].
Qed.

(** The same for a whole pass, which starts with the flag unset. *)
Lemma expandTreeItems_pass_spec page s :
  Inv (world s) ->
  exists r s' evs,
    expandTreeItems_pass page s = Some (r, s')
    /\ expansion_step s s' evs
    /\ (forall c, r <> Exit c)
    /\ (forall b, r = Normal b -> b = negb (bool_decide (icon_clicks evs = []))).
Proof.
  intros HI. unfold expandTreeItems_pass. mrun.
  destruct (respond (WaitForSelector page SEL_EXPAND_ICON (Some 10000%N)) (world s))
    as [[v|e] w1] eqn:Hwait.
  2:{ mrun. rewrite <- !app_assoc. eexists _, _, _. split; [reflexivity|].
      split; [apply expansion_step_quiet; [eapply Inv_respond_eq; [|eassumption]; assumption | reflexivity]|].
      split; [intros ?; discriminate | intros ? [=]]. }
  assert (HI1 : Inv w1) by (eapply Inv_respond_eq; [exact HI | eassumption]).
  mrun.
  destruct (respond (QueryAll page SEL_EXPAND_ICON) w1) as [[v2|e2] w2] eqn:Hquery.
  2:{ mrun. rewrite <- !app_assoc. eexists _, _, _. split; [reflexivity|].
      split; [apply expansion_step_quiet; [eapply Inv_respond_eq; [|eassumption]; assumption | reflexivity]|].
      split; [intros ?; discriminate | intros ? [=]]. }
  assert (HI2 : Inv w2) by (eapply Inv_respond_eq; [exact HI1 | eassumption]).
  mrun. rewrite <- !app_assoc.
  destruct v2 as [| | | |icons| |]; cbn [as_handles];
    try (unfold throw; eexists _, _, _; split; [reflexivity|];
         split; [apply expansion_step_quiet; [exact HI2 | reflexivity]|];
         split; [intros ?; discriminate | intros ? [=]]).
  mrun.
  lazymatch goal with
  | |- context [expandTreeItems_loop page icons false ?s2] =>
      destruct (expandTreeItems_loop_spec page icons false s2 HI2)
        as (r & s' & evs & Hrun & Hstep & Hexit & Hflag)
  end.
  eexists r, s', (_ ++ evs). split; [exact Hrun|].
  split; [|split; [exact Hexit|]].
  - eapply expansion_step_trans; [|exact Hstep].
    apply expansion_step_quiet; [exact HI2 | reflexivity].
  - intros b Hb. rewrite icon_clicks_app. exact (Hflag b Hb).
Qed.

End ExpansionInvariant.


(** ** Tree expansion: what a call does *)

Lemma expandTreeItems_expansion_step fuel page s r s' :
  expandTreeItems fuel page s = Some (r, s') ->
  exists evs, expansion_step (fun _ => True) (fun _ => True) s s' evs.
Proof.
  revert s r s'. induction fuel as [|fuel IH]; intros s r s' Hrun; [discriminate|].
  cbn [expandTreeItems] in Hrun. rewrite bind_unfold in Hrun.
  destruct (expandTreeItems_pass_spec (fun _ => True) (fun _ => True)
              (fun _ _ _ => I) (fun _ _ _ _ _ _ => I) page s I)
    as (r1 & s1 & evs1 & Hpass & Hstep & Hexit & _).
  rewrite Hpass in Hrun. destruct r1 as [[|]|e|c].
  - rewrite bind_unfold, console_run in Hrun. cbv beta iota in Hrun.
    apply IH in Hrun as (evs & Hstep').
    exists (evs1 ++ [Console Log MsgExpandingNested] ++ evs).
    eapply expansion_step_trans; [exact Hstep|].
    eapply expansion_step_trans; [|exact Hstep'].
    apply (expansion_step_quiet (fun _ => True) (fun _ => True) s1 (world s1)
             [Console Log MsgExpandingNested] I eq_refl).
  - rewrite console_run in Hrun. injection Hrun as <- <-.
    exists (evs1 ++ [Console Log MsgAllExpanded]).
    eapply expansion_step_trans; [exact Hstep|].
    apply (expansion_step_quiet (fun _ => True) (fun _ => True) s1 (world s1)
             [Console Log MsgAllExpanded] I eq_refl).
  - injection Hrun as <- <-. exists evs1. exact Hstep.
  - destruct (Hexit c eq_refl).
Qed.

(** ** Tree expansion: termination *)

Section Termination.
(** The navigation tree is finite: while the world satisfies its invariant,
    every label it shows belongs to the finite set [U]. *)
Variable Inv : W -> Prop.
Variable U : gset jsstring.
Hypothesis Inv_respond : forall c w, Inv w -> Inv (respond c w).2.
Hypothesis labels_in_U : forall icon w parent w',
  Inv w -> respond (ParentTextContent icon) w = (Resolved (VParentText parent), w') ->
  parent_label parent ∈ U.

Lemma expandTreeItems_enough_fuel page fuel s :
  Inv (world s) ->
  size (U ∖ expandedItemsKeys s) < fuel ->
  exists r s', expandTreeItems fuel page s = Some (r, s')
               /\ (r = Normal tt \/ exists e, r = Throw e).
Proof.
  revert s. induction fuel as [|fuel IH]; intros s HI Hfuel; [lia|].
  cbn [expandTreeItems]. rewrite bind_unfold.
  destruct (expandTreeItems_pass_spec Inv (fun l => l ∈ U) Inv_respond labels_in_U page s HI)
    as (r1 & s1 & evs1 & Hpass & Hstep & Hexit & Hflag).
  rewrite Hpass. destruct r1 as [[|]|e|c].
  - rewrite bind_unfold, console_run. cbv beta iota.
    apply IH.
    + cbn. apply Hstep.
    + cbn [emit expandedItemsKeys].
      specialize (Hflag true eq_refl).
      destruct (icon_clicks evs1) as [|label clicks] eqn:Hclicks; [discriminate|].
      destruct Hstep as [_ _ Hfresh Hmemo Hlabels _]. rewrite Hclicks in *.
      assert (Hlt : size (U ∖ expandedItemsKeys s1) < size (U ∖ expandedItemsKeys s)).
      { apply subset_size. rewrite Hmemo. split; [set_solver|].
        intros Hsub. apply Forall_cons in Hlabels as [HU _].
        assert (Hl : label ∈ U ∖ expandedItemsKeys s).
        { apply elem_of_difference. split; [exact HU|]. apply Hfresh. left. }
        apply Hsub in Hl. set_solver. }
      lia.
  - rewrite console_run. eexists _, _. split; [reflexivity | left; reflexivity].
  - eexists _, _. split; [reflexivity | right; eexists; reflexivity].
  - destruct (Hexit c eq_refl).
Qed.


End Termination.

(** ** What the pipeline appends to the trace *)

Section StepRules.
(** The rules hold for every relation that is reflexive and transitive. *)
Variable R : state (W := W) -> state (W := W) -> Prop.
Hypothesis R_refl : forall s, R s s.
Hypothesis R_trans : forall s1 s2 s3, R s1 s2 -> R s2 s3 -> R s1 s3.
Local Abbreviation steps := (steps (W := W) R).

Lemma steps_ret {A} (a : A) : steps (ret a).
Proof. intros s r s' [= <- <-]. apply R_refl. Qed.

Lemma steps_throw {A} e : steps (throw (A := A) e).
Proof. intros s r s' [= <- <-]. apply R_refl. Qed.

Lemma steps_process_exit {A} c : steps (process_exit (A := A) c).
Proof. intros s r s' [= <- <-]. apply R_refl. Qed.

Lemma steps_memo_has label : steps (memo_has label).
Proof. intros s r s' [= <- <-]. apply R_refl. Qed.

Lemma steps_bind {A B} (m : M A) (k : A -> M B) :
  steps m -> (forall a, steps (k a)) -> steps (bind m k).
Proof.
  intros Hm Hk s r s' Hrun. rewrite bind_unfold in Hrun.
  destruct (m s) as [[[a|e|c] s1]|] eqn:Hms; [| | |discriminate].
  - eapply R_trans; [exact (Hm _ _ _ Hms) | exact (Hk a _ _ _ Hrun)].
  - injection Hrun as <- <-. exact (Hm _ _ _ Hms).
  - injection Hrun as <- <-. exact (Hm _ _ _ Hms).
Qed.

Lemma steps_try_catch {A} (body : M A) handler :
  steps body -> (forall e, steps (handler e)) -> steps (try_catch body handler).
Proof.
  intros Hb Hh s r s' Hrun. rewrite try_catch_unfold in Hrun.
  destruct (body s) as [[[a|e|c] s1]|] eqn:Hbs; [| | |discriminate].
  - injection Hrun as <- <-. exact (Hb _ _ _ Hbs).
  - eapply R_trans; [exact (Hb _ _ _ Hbs) | exact (Hh e _ _ _ Hrun)].
  - injection Hrun as <- <-. exact (Hb _ _ _ Hbs).
Qed.

Lemma steps_try_finally {A} (body : M A) fin :
  steps body -> steps fin -> steps (try_finally body fin).
Proof.
  intros Hb Hf s r s' Hrun. unfold try_finally in Hrun.
  destruct (body s) as [[rb s1]|] eqn:Hbs; [|discriminate].
  pose proof (Hb _ _ _ Hbs) as H1.
  destruct rb as [a|e|c].
  - destruct (fin s1) as [[[[]|ef|cf] s2]|] eqn:Hfs; [| | |discriminate];
      injection Hrun as <- <-; (eapply R_trans; [exact H1 | exact (Hf _ _ _ Hfs)]).
  - destruct (fin s1) as [[[[]|ef|cf] s2]|] eqn:Hfs; [| | |discriminate];
      injection Hrun as <- <-; (eapply R_trans; [exact H1 | exact (Hf _ _ _ Hfs)]).
  - injection Hrun as <- <-. exact H1.
Qed.

Lemma steps_promise_all2 {A B} (a : M A) (b : M B) :
  steps a -> steps b -> steps (promise_all2 a b).
Proof.
  intros Ha Hb s r s' Hrun. unfold promise_all2 in Hrun.
  destruct (a s) as [[ra s1]|] eqn:Has; [|discriminate].
  pose proof (Ha _ _ _ Has) as H1.
  destruct ra as [x|e|c].
  - destruct (b s1) as [[[y|eb|cb] s2]|] eqn:Hbs; [| | |discriminate];
      injection Hrun as <- <-; (eapply R_trans; [exact H1 | exact (Hb _ _ _ Hbs)]).
  - destruct (b s1) as [[[y|eb|cb] s2]|] eqn:Hbs; [| | |discriminate];
      injection Hrun as <- <-; (eapply R_trans; [exact H1 | exact (Hb _ _ _ Hbs)]).
  - injection Hrun as <- <-. exact H1.
Qed.

Lemma steps_as_context v : steps (as_context v).
Proof. destruct v; first [apply steps_ret | apply steps_throw]. Qed.
Lemma steps_as_page v : steps (as_page v).
Proof. destruct v; first [apply steps_ret | apply steps_throw]. Qed.
Lemma steps_as_handle v : steps (as_handle v).
Proof. destruct v; first [apply steps_ret | apply steps_throw]. Qed.
Lemma steps_as_handles v : steps (as_handles v).
Proof. destruct v; first [apply steps_ret | apply steps_throw]. Qed.
Lemma steps_as_text v : steps (as_text v).
Proof. destruct v; first [apply steps_ret | apply steps_throw]. Qed.
Lemma steps_as_parent_text v : steps (as_parent_text v).
Proof. destruct v; first [apply steps_ret | apply steps_throw]. Qed.

End StepRules.

Lemma appends_refl p s : appends p s s.
Proof. exists []. rewrite app_nil_r. split; reflexivity. Qed.

Lemma appends_trans p s1 s2 s3 : appends p s1 s2 -> appends p s2 s3 -> appends p s1 s3.
Proof.
  intros (evs1 & Ht1 & Hp1) (evs2 & Ht2 & Hp2). exists (evs1 ++ evs2).
  rewrite Ht2, Ht1, app_assoc, forallb_app, Hp1, Hp2. split; reflexivity.
Qed.

Section Emits.
Variable p : event -> bool.
Local Abbreviation emits := (emits (W := W) p).

Lemma emits_ret {A} (a : A) : emits (ret a).
Proof. apply steps_ret, appends_refl. Qed.

Lemma emits_throw {A} e : emits (throw (A := A) e).
Proof. apply steps_throw, appends_refl. Qed.

Lemma emits_process_exit {A} c : emits (process_exit (A := A) c).
Proof. apply steps_process_exit, appends_refl. Qed.

Lemma emits_console l m : p (Console l m) = true -> emits (console l m).
Proof.
  intros Hp s r s' [= <- <-]. exists [Console l m]. split; [reflexivity|].
  cbn. rewrite Hp. reflexivity.
Qed.

Lemma emits_perform c : p (Call c) = true -> emits (perform c).
Proof.
  intros Hp s r s' Hrun. unfold perform in Hrun.
  destruct (respond c (world s)) as [[v|e] w']; injection Hrun as <- <-;
    (exists [Call c]; split; [reflexivity|]; cbn; rewrite Hp; reflexivity).
Qed.

Lemma emits_bind {A B} (m : M A) (k : A -> M B) :
  emits m -> (forall a, emits (k a)) -> emits (bind m k).
Proof. apply steps_bind, appends_trans. Qed.

Lemma emits_try_catch {A} (body : M A) handler :
  emits body -> (forall e, emits (handler e)) -> emits (try_catch body handler).
Proof. apply steps_try_catch, appends_trans. Qed.

Lemma emits_try_finally {A} (body : M A) fin :
  emits body -> emits fin -> emits (try_finally body fin).
Proof. apply steps_try_finally, appends_trans. Qed.

Lemma emits_promise_all2 {A B} (a : M A) (b : M B) :
  emits a -> emits b -> emits (promise_all2 a b).
Proof. apply steps_promise_all2, appends_trans. Qed.

Lemma emits_await {A} c (shape : value -> M A) :
  p (Call c) = true -> (forall v, emits (shape v)) -> emits (await c shape).
Proof. intros Hp Hs. apply emits_bind; [apply emits_perform, Hp | exact Hs]. Qed.

Lemma emits_as_context v : emits (as_context v).
Proof. apply steps_as_context, appends_refl. Qed.
Lemma emits_as_page v : emits (as_page v).
Proof. apply steps_as_page, appends_refl. Qed.
Lemma emits_as_handle v : emits (as_handle v).
Proof. apply steps_as_handle, appends_refl. Qed.
Lemma emits_as_handles v : emits (as_handles v).
Proof. apply steps_as_handles, appends_refl. Qed.
Lemma emits_as_text v : emits (as_text v).
Proof. apply steps_as_text, appends_refl. Qed.
Lemma emits_as_parent_text v : emits (as_parent_text v).
Proof. apply steps_as_parent_text, appends_refl. Qed.

End Emits.

End ScriptFacts.

(** Break a fragment into its parts; what is left are the side conditions
    on single events and the calls of other functions. *)
Ltac emits_step :=
  first
    [ apply emits_ret | apply emits_throw | apply emits_process_exit
    | apply emits_as_context | apply emits_as_page | apply emits_as_handle
    | apply emits_as_handles | apply emits_as_text | apply emits_as_parent_text
    | apply emits_console; reflexivity
    | apply emits_perform; reflexivity
    | apply emits_await; [reflexivity | intros ?]
    | apply emits_bind; [|intros ?]
    | apply emits_try_catch; [|intros ?]
    | apply emits_promise_all2
    | assumption ].
Ltac emits_tac := repeat emits_step.

Section PipelineFacts.
Context {W : Type} `{!Driver W}.
Implicit Types (s : state (W := W)) (w : W).

Lemma emits_findPDFOption p page :
  (forall sel, p (Call (QueryAll page sel)) = true) ->
  (forall item, p (Call (TextContent item)) = true) ->
  emits p (findPDFOption page).
Proof.
  intros Hq Hp. unfold findPDFOption.
  apply emits_bind; [apply emits_await; [apply Hq | apply emits_as_handles] | intros menuItems].
  induction menuItems as [|item rest IH]; cbn [findPDFOption_loop]; [apply emits_ret|].
  apply emits_bind; [apply emits_await; [apply Hp | apply emits_as_text] | intros t].
  cbv zeta. destruct (includes _ _); [apply emits_ret | exact IH].
Qed.

Lemma emits_handlePopupPrint p popup index :
  p (Call (WaitForLoadState popup)) = true ->
  p (Call (InstallPrintHook popup)) = true ->
  (forall t, p (Call (WaitForPrinted popup t)) = true) ->
  (forall l n, p (Console l (MsgPrintTriggered n)) = true) ->
  (forall l n, p (Console l (MsgPrintNotTriggered n)) = true) ->
  emits p (handlePopupPrint popup index).
Proof.
  intros Hc1 Hc2 Hc3 H1 H2. unfold handlePopupPrint.
  repeat first [ apply emits_perform; auto | apply emits_console; auto
               | apply emits_bind; [|intros ?] | apply emits_try_catch; [|intros ?] ].
Qed.

(** After its first two events, the pipeline never again announces an
    item. *)
Lemma emits_exportItemToPDF_option context page index :
  emits not_item_start (exportItemToPDF_option context page index).
Proof.
  unfold exportItemToPDF_option.
  apply emits_bind; [apply emits_findPDFOption; reflexivity | intros [exportButton|]].
  2:{ emits_tac. }
  apply emits_bind; [emits_tac | intros _].
  apply emits_bind; [emits_tac | intros [popup v]].
  unfold exportItemToPDF_print.
  apply emits_try_catch; [|intros e; emits_tac].
  apply emits_bind; [emits_tac | intros _].
  apply emits_bind; [apply emits_handlePopupPrint; reflexivity | intros _].
  emits_tac.
Qed.

(** *** The pipeline always finishes *)

Lemma completes_ret {A} (a : A) : completes (W := W) (ret a).
Proof. intros s. eexists _, _. split; [reflexivity | discriminate]. Qed.

Lemma completes_throw {A} e : completes (W := W) (throw (A := A) e).
Proof. intros s. eexists _, _. split; [reflexivity | discriminate]. Qed.

Lemma completes_console l m : completes (W := W) (console l m).
Proof. intros s. eexists _, _. split; [reflexivity | discriminate]. Qed.

Lemma completes_perform c : completes (W := W) (perform c).
Proof.
  intros s. unfold perform. destruct (respond c (world s)) as [[v|e] w'];
    (eexists _, _; split; [reflexivity | discriminate]).
Qed.

Lemma completes_bind {A B} (m : M (W := W) A) (k : A -> M B) :
  completes m -> (forall a, completes (k a)) -> completes (bind m k).
Proof.
  intros Hm Hk s. rewrite bind_unfold.
  destruct (Hm s) as (r & s1 & -> & Hexit). destruct r as [a|e|c].
  - apply Hk.
  - eexists _, _. split; [reflexivity | discriminate].
  - destruct (Hexit c eq_refl).
Qed.

Lemma completes_try_catch {A} (body : M (W := W) A) handler :
  completes body -> (forall e, completes (handler e)) -> completes (try_catch body handler).
Proof.
  intros Hb Hh s. rewrite try_catch_unfold.
  destruct (Hb s) as (r & s1 & -> & Hexit). destruct r as [a|e|c].
  - eexists _, _. split; [reflexivity | discriminate].
  - apply Hh.
  - destruct (Hexit c eq_refl).
Qed.

Lemma completes_promise_all2 {A B} (a : M (W := W) A) (b : M B) :
  completes a -> completes b -> completes (promise_all2 a b).
Proof.
  intros Ha Hb s. unfold promise_all2.
  destruct (Ha s) as (ra & s1 & -> & Hexit1).
  destruct (Hb s1) as (rb & s2 & Hbs & Hexit2).
  destruct ra as [x|e|c]; [| |destruct (Hexit1 c eq_refl)]; rewrite Hbs;
    (destruct rb as [y|eb|cb]; [| |destruct (Hexit2 cb eq_refl)]);
    (eexists _, _; split; [reflexivity | discriminate]).
Qed.

Lemma completes_await {A} c (shape : value -> M (W := W) A) :
  (forall v, completes (shape v)) -> completes (await c shape).
Proof. intros Hs. apply completes_bind; [apply completes_perform | exact Hs]. Qed.

Ltac completes_tac :=
  repeat first
    [ apply completes_ret | apply completes_throw | apply completes_console
    | apply completes_perform
    | apply completes_await; intros [];
        first [apply completes_ret | apply completes_throw]
    | apply completes_bind; [|intros ?]
    | apply completes_try_catch; [|intros ?]
    | apply completes_promise_all2 ].

Lemma completes_findPDFOption page : completes (W := W) (findPDFOption page).
Proof.
  unfold findPDFOption. apply completes_bind; [completes_tac | intros menuItems].
  induction menuItems as [|item rest IH]; cbn [findPDFOption_loop]; [completes_tac|].
  apply completes_bind; [completes_tac | intros t].
  cbv zeta. destruct (includes _ _); [completes_tac | exact IH].
Qed.

(** [exportItemToPDF] always finishes: it returns an outcome or it throws. *)
Lemma completes_exportItemToPDF context page item index :
  completes (W := W) (exportItemToPDF context page item index).
Proof.
  unfold exportItemToPDF.
  do 2 (apply completes_bind; [completes_tac | intros _]).
  apply completes_bind; [unfold exportItemToPDF_menu; completes_tac | intros [|]];
    [|completes_tac].
  unfold exportItemToPDF_option.
  apply completes_bind; [apply completes_findPDFOption | intros [exportButton|]];
    [|completes_tac].
  apply completes_bind; [completes_tac | intros _].
  apply completes_bind; [completes_tac | intros [popup v]].
  unfold exportItemToPDF_print, handlePopupPrint. completes_tac.
Qed.

Lemma completes_run_loop context page items todo i successCount skippedCount :
  completes (W := W) (run_loop context page items todo i successCount skippedCount).
Proof.
  revert i successCount skippedCount.
  induction todo as [|todo IH]; intros i sc kc; cbn [run_loop]; [completes_tac|].
  apply completes_bind; [completes_tac | intros _].
  apply completes_bind;
    [destruct (items !! i); [apply completes_exportItemToPDF | completes_tac] | intros o].
  destruct o; (apply completes_bind; [completes_tac | intros _; apply IH]).
Qed.

Lemma exportItemToPDF_events context page item index s r s' :
  exportItemToPDF context page item index s = Some (r, s') ->
  exists evs,
    trace s' = trace s ++ Console Log (MsgClickingItem (index + 1))
                          :: Call (HandleClick item) :: evs
    /\ forallb not_item_start evs = true.
Proof.
  unfold exportItemToPDF. intros Hrun.
  rewrite bind_unfold, console_run in Hrun. cbv beta iota in Hrun.
  rewrite bind_unfold in Hrun. unfold perform at 1 in Hrun. cbn [emit world trace] in Hrun.
  destruct (respond (HandleClick item) (world s)) as [[v|e] w1].
  2:{ injection Hrun as <- <-. exists []. cbn. rewrite <- app_assoc. split; reflexivity. }
  cbv beta iota in Hrun.
  assert (Hrest : emits (W := W) not_item_start
            (bind (exportItemToPDF_menu page index)
               (fun menu : bool =>
                  if menu then exportItemToPDF_option context page index
                  else ret skipped))).
  { apply emits_bind; [unfold exportItemToPDF_menu; emits_tac | intros [|]].
    - apply emits_exportItemToPDF_option.
    - apply emits_ret. }
  apply Hrest in Hrun as (evs & Ht & Hq). exists evs. split; [|exact Hq].
  rewrite Ht. cbn [trace]. rewrite <- !app_assoc. reflexivity.
Qed.

(** ** The run loop *)

Lemma pipeline_items_quiet (evs1 evs2 : list event) :
  forallb not_item_start evs1 = true ->
  pipeline_items (evs1 ++ evs2) = pipeline_items evs2.
Proof.
  induction evs1 as [|e evs1 IH]; [reflexivity|]. cbn [forallb].
  rewrite andb_true_iff. intros [He Hq]. cbn [app].
  destruct e as [l m|c]; [destruct l, m; try discriminate He|]; cbn; auto.
Qed.

(** The loop from index [i] on: it hands the remaining items to the
    pipeline one after the other, and every finished item adds one to
    exactly one counter. *)
Lemma run_loop_spec context page items todo i successCount skippedCount s r s' :
  i + todo = length items ->
  run_loop context page items todo i successCount skippedCount s = Some (r, s') ->
  exists evs,
    trace s' = trace s ++ evs
    /\ pipeline_items evs `prefix_of` drop i items
    /\ forall successCount' skippedCount',
         r = Normal (successCount', skippedCount') ->
         pipeline_items evs = drop i items
         /\ successCount <= successCount' /\ skippedCount <= skippedCount'
         /\ successCount' + skippedCount' = successCount + skippedCount + todo.
Proof.
  revert i successCount skippedCount s.
  induction todo as [|todo IH]; intros i successCount skippedCount s Hlen Hrun.
  - injection Hrun as <- <-. exists []. rewrite app_nil_r. split; [reflexivity|].
    rewrite drop_ge by lia. split; [reflexivity|].
    intros sc' kc' [= <- <-]. repeat split; lia.
  - cbn [run_loop] in Hrun. rewrite bind_unfold, console_run in Hrun.
    cbv beta iota in Hrun. rewrite bind_unfold in Hrun.
    destruct (items !! i) as [item|] eqn:Hitem.
    2:{ apply lookup_ge_None in Hitem. lia. }
    rewrite (drop_S _ _ _ Hitem).
    destruct (exportItemToPDF context page item i _) as [[ro s1]|] eqn:Hexport;
      [|discriminate].
    apply exportItemToPDF_events in Hexport as (evs1 & Ht1 & Hq1).
    cbn [emit trace] in Ht1.
    assert (Habrupt : forall (r0 : completion (nat * nat)),
              (forall a, r0 <> Normal a) -> Some (r0, s1) = Some (r, s') ->
              exists evs,
                trace s' = trace s ++ evs
                /\ pipeline_items evs `prefix_of` item :: drop (S i) items
                /\ forall successCount' skippedCount',
                     r = Normal (successCount', skippedCount') ->
                     pipeline_items evs = item :: drop (S i) items
                     /\ successCount <= successCount' /\ skippedCount <= skippedCount'
                     /\ successCount' + skippedCount'
                        = successCount + skippedCount + S todo).
    { intros r0 Hr0 [= <- <-].
      exists (Console Log (MsgProcessing (i + 1) (length items))
              :: Console Log (MsgClickingItem (i + 1)) :: Call (HandleClick item)
              :: evs1).
      rewrite Ht1, <- app_assoc. split; [reflexivity|].
      cbn [pipeline_items].
      rewrite <- (app_nil_r evs1), pipeline_items_quiet by exact Hq1. cbn.
      split; [apply prefix_cons, prefix_nil|].
      intros a b Hn. destruct (Hr0 _ Hn). }
    destruct ro as [o|e|c];
      [|apply (Habrupt (Throw e)); [discriminate | exact Hrun]
       |apply (Habrupt (Exit c)); [discriminate | exact Hrun]].
    clear Habrupt.
    set (successCount1 := match o with exported => S successCount | skipped => successCount end).
    set (skippedCount1 := match o with exported => skippedCount | skipped => S skippedCount end).
    assert (Hrun' : bind (perform (WaitForTimeout page 1000))
                      (fun _ => run_loop context page items todo (S i)
                                  successCount1 skippedCount1) s1 = Some (r, s')).
    { destruct o; exact Hrun. }
    clear Hrun. rewrite bind_unfold in Hrun'. unfold perform at 1 in Hrun'.
    destruct (respond (WaitForTimeout page 1000) (world s1)) as [[v|e] w2].
    + cbv beta iota in Hrun'.
      apply IH in Hrun' as (evs2 & Ht2 & Hpre & Hnormal); [|lia].
      cbn [trace] in Ht2.
      exists (Console Log (MsgProcessing (i + 1) (length items))
              :: Console Log (MsgClickingItem (i + 1)) :: Call (HandleClick item)
              :: evs1 ++ Call (WaitForTimeout page 1000) :: evs2).
      split; [rewrite Ht2, Ht1, <- !app_assoc; reflexivity|].
      cbn [pipeline_items]. rewrite pipeline_items_quiet by exact Hq1.
      cbn [pipeline_items].
      split; [apply prefix_cons, Hpre|].
      intros sc' kc' Hr. destruct (Hnormal sc' kc' Hr) as (Hitems & Hs & Hk & Hsum).
      rewrite Hitems. split; [reflexivity|].
      subst successCount1 skippedCount1. destruct o; lia.
    + injection Hrun' as <- <-.
      exists (Console Log (MsgProcessing (i + 1) (length items))
              :: Console Log (MsgClickingItem (i + 1)) :: Call (HandleClick item)
              :: evs1 ++ [Call (WaitForTimeout page 1000)]).
      cbn [trace]. split; [rewrite Ht1, <- !app_assoc; reflexivity|].
      cbn [pipeline_items]. rewrite pipeline_items_quiet by exact Hq1. cbn.
      split; [apply prefix_cons, prefix_nil|]. intros a b [=].
Qed.


(** An iteration of the loop opens with the processing line and the click
    on its item. *)
Lemma run_loop_starts context page items todo i successCount skippedCount item s r s' :
  i + S todo = length items ->
  items !! i = Some item ->
  run_loop context page items (S todo) i successCount skippedCount s = Some (r, s') ->
  exists evs,
    trace s' = trace s ++ Console Log (MsgProcessing (i + 1) (length items))
                 :: Console Log (MsgClickingItem (i + 1))
                 :: Call (HandleClick item) :: evs.
Proof.
  intros Hlen Hitem Hrun. cbn [run_loop] in Hrun.
  rewrite bind_unfold, console_run in Hrun. cbv beta iota in Hrun.
  rewrite bind_unfold, Hitem in Hrun.
  destruct (exportItemToPDF context page item i _) as [[ro s1]|] eqn:Hexport;
    [|discriminate].
  apply exportItemToPDF_events in Hexport as (evs1 & Ht1 & _).
  cbn [emit trace] in Ht1. rewrite <- app_assoc in Ht1. cbn [app] in Ht1.
  assert (Hrest : forall sc kc,
            bind (perform (WaitForTimeout page 1000))
              (fun _ => run_loop context page items todo (S i) sc kc) s1 = Some (r, s') ->
            exists evs2, trace s' = trace s1 ++ evs2).
  { intros sc kc Hb. rewrite bind_unfold in Hb. unfold perform at 1 in Hb.
    destruct (respond (WaitForTimeout page 1000) (world s1)) as [[v|e] w2].
    - cbv beta iota in Hb. apply run_loop_spec in Hb as (evs & Ht & _); [|lia].
      cbn [trace] in Ht. rewrite <- app_assoc in Ht. eexists. exact Ht.
    - injection Hb as <- <-. eexists. reflexivity. }
  destruct ro as [o|e|c].
  - destruct o; cbv beta iota in Hrun; apply Hrest in Hrun as (evs2 & Ht2);
      rewrite Ht2, Ht1, <- app_assoc; cbn [app]; eexists; reflexivity.
  - injection Hrun as <- <-. eexists. exact Ht1.
  - injection Hrun as <- <-. eexists. exact Ht1.
Qed.

(** ** The print signal *)

(** The option search on a menu whose first PDF entry is [exportButton]:
    it reads the entries before it and the entry itself, and returns it. *)
Lemma findPDFOption_loop_finds (before : menu) exportButton text (later : list handle)
    s w_end w' :
  reads_to (world s) before w_end ->
  (forall entry, entry ∈ before -> includes (trimmed_text entry.2) PDF = false) ->
  respond (TextContent exportButton) w_end = (Resolved (VText text), w') ->
  includes (trimmed_text text) PDF = true ->
  findPDFOption_loop (before.*1 ++ exportButton :: later) s
  = Some (Normal (Some exportButton),
          State w'
            (trace s ++ ((fun h => Call (TextContent h)) <$> before.*1)
               ++ [Call (TextContent exportButton)])
            (expandedItemsKeys s)).
Proof.
  revert s. induction before as [|[h t] before IH]; intros s Hreads Hnone Hresp Hpdf.
  - cbn in Hreads. subst w_end. cbn [fmap list_fmap app findPDFOption_loop].
    mrun. cbn [as_text]. mrun. rewrite Hpdf. reflexivity.
  - destruct Hreads as (w1 & Hh & Hreads).
    cbn [fmap list_fmap fst app findPDFOption_loop]. mrun. cbn [as_text]. mrun.
    pose proof (Hnone (h, t) (list_elem_of_here _ _)) as Hh'. cbn [snd] in Hh'. rewrite Hh'.
    rewrite (IH (State w1 (trace s ++ [Call (TextContent h)]) (expandedItemsKeys s)));
      [|exact Hreads|intros entry Hin; apply Hnone; right; exact Hin|exact Hresp|exact Hpdf].
    cbn [trace expandedItemsKeys]. rewrite <- app_assoc. reflexivity.
Qed.

(** C7: an item whose pipeline reaches the wait for the print signal, and
    whose wait is rejected (a timeout), is exported all the same.  With the
    item selected, its menu open, the PDF option found and clicked, the
    popup opened, loaded and hooked, a rejected [waitForFunction] only
    produces the warning "Print not triggered": the popup is closed,
    "Exported item" is logged and [exportItemToPDF] returns "exported".  The
    loop of [run] then counts the item as a success, pauses, and, the pause
    over, starts on the next item; it comes to an end, and a completed loop
    reports at least this success. *)
Theorem print_timeout_keeps_exported context page items todo i successCount
    skippedCount item (before : menu) exportButton text (later : list handle) popup s0 e
    v1 v2 v3 v4 v7 v8 v9 v11 w1 w2 w3 w4 w5 w5' w5'' w6 w7 w8 w9 w10 w11 :
  i + S todo = length items ->
  items !! i = Some item ->
  respond (HandleClick item) (world s0) = (Resolved v1, w1) ->
  respond (WaitForSelector page SEL_MORE_OPTIONS (Some 10000%N)) w1 = (Resolved v2, w2) ->
  respond (PageClick page SEL_MORE_OPTIONS) w2 = (Resolved v3, w3) ->
  respond (WaitForSelector page SEL_MENUITEM None) w3 = (Resolved v4, w4) ->
  respond (QueryAll page SEL_MENUITEM) w4
    = (Resolved (VHandles (before.*1 ++ exportButton :: later)), w5) ->
  reads_to w5 before w5' ->
  (forall entry, entry ∈ before -> includes (trimmed_text entry.2) PDF = false) ->
  respond (TextContent exportButton) w5' = (Resolved (VText text), w5'') ->
  includes (trimmed_text text) PDF = true ->
  respond (WaitForEventPage context) w5'' = (Resolved (VPage popup), w6) ->
  respond (HandleClick exportButton) w6 = (Resolved v7, w7) ->
  respond (WaitForLoadState popup) w7 = (Resolved v8, w8) ->
  respond (InstallPrintHook popup) w8 = (Resolved v9, w9) ->
  respond (WaitForPrinted popup (Some 10000%N)) w9 = (Rejected e, w10) ->
  respond (PageClose popup) w10 = (Resolved v11, w11) ->
  let s_done :=
    State w11
      (trace s0
       ++ [Console Log (MsgProcessing (i + 1) (length items));
           Console Log (MsgClickingItem (i + 1));
           Call (HandleClick item);
           Console Log MsgWaitingMoreOptions;
           Call (WaitForSelector page SEL_MORE_OPTIONS (Some 10000%N));
           Call (PageClick page SEL_MORE_OPTIONS);
           Call (WaitForSelector page SEL_MENUITEM None);
           Console Log MsgMenuOpened;
           Call (QueryAll page SEL_MENUITEM)]
       ++ ((fun h => Call (TextContent h)) <$> before.*1)
       ++ [Call (TextContent exportButton);
           Console Log MsgClickingPDF;
           Call (WaitForEventPage context);
           Call (HandleClick exportButton);
           Console Log MsgHandlingPopup;
           Call (WaitForLoadState popup);
           Call (InstallPrintHook popup);
           Call (WaitForPrinted popup (Some 10000%N));
           Console Warn (MsgPrintNotTriggered (i + 1));
           Call (PageClose popup);
           Console Log (MsgExported (i + 1))])
      (expandedItemsKeys s0) in
  exportItemToPDF context page item i
    (emit (Console Log (MsgProcessing (i + 1) (length items))) s0)
    = Some (Normal exported, s_done)
  /\ exists r s' evs,
       run_loop context page items (S todo) i successCount skippedCount s0
         = Some (r, s')
       /\ bind (perform (WaitForTimeout page 1000))
            (fun _ => run_loop context page items todo (S i)
                        (S successCount) skippedCount) s_done
          = Some (r, s')
       /\ trace s' = trace s_done ++ Call (WaitForTimeout page 1000) :: evs
       /\ (forall c, r <> Exit c)
       /\ (forall successCount' skippedCount',
             r = Normal (successCount', skippedCount') ->
             S successCount <= successCount' /\ skippedCount <= skippedCount'
             /\ successCount' + skippedCount' = successCount + skippedCount + S todo)
       /\ (forall v12 w12 item',
             respond (WaitForTimeout page 1000) w11 = (Resolved v12, w12) ->
             items !! S i = Some item' ->
             exists evs',
               evs = Console Log (MsgProcessing (S i + 1) (length items))
                     :: Console Log (MsgClickingItem (S i + 1))
                     :: Call (HandleClick item') :: evs').
Proof.
  intros Hlen Hitem Hclick Hmore Hopen Hmenu Hquery Hreads Hnone Htext Hpdf
    Hpopup Hbutton Hload Hhook Hwait Hclose s_done.
  assert (Hexport : exportItemToPDF context page item i
                      (emit (Console Log (MsgProcessing (i + 1) (length items))) s0)
                    = Some (Normal exported, s_done)).
  { unfold exportItemToPDF, exportItemToPDF_menu. mrun.
    unfold exportItemToPDF_option, findPDFOption. mrun. cbn [as_handles].
    rewrite ret_run. cbv beta iota.
    erewrite (findPDFOption_loop_finds before exportButton text later _ w5' w5'');
      [|exact Hreads|exact Hnone|exact Htext|exact Hpdf].
    mred. rewrite bind_unfold, console_run. mred. rewrite bind_unfold.
    unfold promise_all2. mrun. cbn [as_page]. mrun.
    unfold exportItemToPDF_print, handlePopupPrint. mrun.
    unfold s_done. rewrite <- !app_assoc. reflexivity. }
  split; [exact Hexport|].
  assert (Hstep : run_loop context page items (S todo) i successCount skippedCount s0
                  = bind (perform (WaitForTimeout page 1000))
                      (fun _ => run_loop context page items todo (S i)
                                  (S successCount) skippedCount) s_done).
  { cbn [run_loop]. rewrite bind_unfold, console_run. cbv beta iota.
    rewrite bind_unfold, Hitem, Hexport. reflexivity. }
  destruct (completes_run_loop context page items (S todo) i successCount skippedCount s0)
    as (r & s' & Hrun & Hexit).
  rewrite Hstep in Hrun. rewrite Hstep. pose proof Hrun as Hbind.
  rewrite bind_unfold in Hrun. unfold perform at 1 in Hrun.
  cbn [world trace expandedItemsKeys s_done] in Hrun.
  destruct (respond (WaitForTimeout page 1000) w11) as [[v12|e12] w12] eqn:Hpause;
    cbv beta iota in Hrun.
  - pose proof Hrun as Hspec.
    apply run_loop_spec in Hspec as (evs & Ht & _ & Hnormal); [|lia].
    cbn [trace] in Ht. rewrite <- app_assoc in Ht. cbn [app] in Ht.
    exists r, s', evs. split; [exact Hbind|]. split; [exact Hbind|].
    split; [exact Ht|]. split; [exact Hexit|]. split.
    + intros sc' kc' Hr. destruct (Hnormal sc' kc' Hr) as (_ & Hsc & Hkc & Hsum).
      split; [exact Hsc|]. split; [exact Hkc | lia].
    + intros v w item' [= <- <-] Hitem'.
      destruct todo as [|todo]; [apply lookup_lt_Some in Hitem'; lia|].
      apply (run_loop_starts _ _ _ _ _ _ _ item') in Hrun as (evs' & Ht'); [|lia|exact Hitem'].
      cbn [trace] in Ht'. rewrite <- app_assoc in Ht'. cbn [app] in Ht'.
      rewrite Ht in Ht'. apply app_inv_head in Ht'. injection Ht' as ->.
      eexists. reflexivity.
  - injection Hrun as <- <-.
    exists (Throw e12), (State w12 (trace s_done ++ [Call (WaitForTimeout page 1000)])
                           (expandedItemsKeys s_done)), [].
    split; [exact Hbind|]. split; [exact Hbind|].
    split; [reflexivity|]. split; [intros c; discriminate|].
    split; [intros sc' kc'; discriminate|]. intros v w item'; discriminate.
Qed.

End PipelineFacts.

(** ** The workspace selector *)

Section Selector.
Local Open Scope N_scope.



















End Selector.

Section SelectorUse.
Context {W : Type} `{!Driver W}.



End SelectorUse.

(** ** The run controller and the session *)

Section RunFacts.
Context {W : Type} `{!Driver W}.
Implicit Types (s : state (W := W)) (w : W).

Section Fragments.
(** The script outside [expandTreeItems] neither clicks an expand
    affordance nor closes the context.  So a reflexive and transitive
    relation [R] that every console line, every other call and
    [expandTreeItems] respect is respected by the whole [try] block of
    [run]. *)
Variable R : state (W := W) -> state (W := W) -> Prop.
Hypothesis R_refl : forall s, R s s.
Hypothesis R_trans : forall s1 s2 s3, R s1 s2 -> R s2 s3 -> R s1 s3.
Hypothesis R_console : forall l m, steps R (console l m).
Hypothesis R_call : forall c,
  not_icon_click (Call c) = true -> not_context_close (Call c) = true ->
  steps R (perform c).
Hypothesis R_expand : forall fuel page, steps R (expandTreeItems fuel page).

Ltac fragment :=
  repeat first
    [ apply steps_ret, R_refl | apply steps_throw, R_refl
    | apply steps_as_context, R_refl | apply steps_as_page, R_refl
    | apply steps_as_handle, R_refl | apply steps_as_handles, R_refl
    | apply steps_as_text, R_refl | apply steps_as_parent_text, R_refl
    | apply R_console
    | apply R_call; reflexivity
    | apply (steps_bind R R_trans); [|intros ?]
    | apply (steps_try_catch R R_trans); [|intros ?]
    | apply (steps_promise_all2 R R_trans)
    | progress unfold await ].

Lemma steps_launchChrome : steps R launchChrome.
Proof. unfold launchChrome. fragment. Qed.

Lemma steps_openWorkspace workspaceName page :
  steps R (openWorkspace workspaceName page).
Proof.
  unfold openWorkspace. cbv zeta.
  do 4 (apply (steps_bind R R_trans); [fragment | intros _]).
  apply (steps_bind R R_trans); [fragment | intros [button|]]; fragment.
Qed.

Lemma steps_getTreeItems page : steps R (getTreeItems page).
Proof. unfold getTreeItems. fragment. Qed.

Lemma steps_findPDFOption page : steps R (findPDFOption page).
Proof.
  unfold findPDFOption.
  apply (steps_bind R R_trans); [fragment | intros menuItems].
  induction menuItems as [|item rest IH]; cbn [findPDFOption_loop]; [fragment|].
  apply (steps_bind R R_trans); [fragment | intros t].
  cbv zeta. destruct (includes _ _); [fragment | exact IH].
Qed.

Lemma steps_exportItemToPDF context page item index :
  steps R (exportItemToPDF context page item index).
Proof.
  unfold exportItemToPDF.
  do 2 (apply (steps_bind R R_trans); [fragment | intros _]).
  apply (steps_bind R R_trans); [unfold exportItemToPDF_menu; fragment | intros [|]];
    [|fragment].
  unfold exportItemToPDF_option.
  apply (steps_bind R R_trans); [apply steps_findPDFOption | intros [exportButton|]];
    [|fragment].
  apply (steps_bind R R_trans); [fragment | intros _].
  apply (steps_bind R R_trans); [fragment | intros [popup v]].
  unfold exportItemToPDF_print, handlePopupPrint. fragment.
Qed.

Lemma steps_run_loop context page items todo i successCount skippedCount :
  steps R (run_loop context page items todo i successCount skippedCount).
Proof.
  revert i successCount skippedCount.
  induction todo as [|todo IH]; intros i sc kc; cbn [run_loop]; [fragment|].
  apply (steps_bind R R_trans); [fragment | intros _].
  apply (steps_bind R R_trans);
    [destruct (items !! i); [apply steps_exportItemToPDF | fragment] | intros o].
  destruct o; (apply (steps_bind R R_trans); [fragment | intros _; apply IH]).
Qed.

Lemma steps_run_body fuel workspaceName context :
  steps R (run_body fuel workspaceName context).
Proof.
  unfold run_body.
  apply (steps_bind R R_trans); [fragment | intros page].
  apply (steps_bind R R_trans); [fragment | intros _].
  apply (steps_bind R R_trans); [apply steps_openWorkspace | intros _].
  apply (steps_bind R R_trans); [apply R_expand | intros _].
  apply (steps_bind R R_trans); [apply steps_getTreeItems | intros items].
  apply (steps_bind R R_trans); [apply steps_run_loop | intros [sc kc]].
  fragment.
Qed.

End Fragments.

(** Nothing before the [finally] block closes the context. *)
Lemma emits_run_body fuel workspaceName context :
  emits (W := W) not_context_close (run_body fuel workspaceName context).
Proof.
  apply (steps_run_body (appends not_context_close)).
  - apply appends_refl.
  - apply appends_trans.
  - intros l m. apply emits_console. reflexivity.
  - intros c _ Hc. apply emits_perform. exact Hc.
  - assert (Hloop : forall page icons expanded,
              emits (W := W) not_context_close (expandTreeItems_loop page icons expanded)).
    { intros page icons. induction icons as [|icon rest IH]; intros expanded;
        cbn [expandTreeItems_loop]; [apply emits_ret|].
      apply emits_bind; [emits_tac | intros parent]. cbv zeta.
      apply emits_bind; [apply steps_memo_has, appends_refl | intros [|]]; [apply IH|].
      apply emits_bind; [emits_tac | intros _].
      apply emits_bind; [emits_tac | intros _].
      apply emits_bind; [|intros _; apply IH].
      intros s r s' [= <- <-]. exists []. cbn. rewrite app_nil_r. split; reflexivity. }
    intros fuel' page. induction fuel' as [|fuel' IH]; [intros s r s' [=]|].
    cbn [expandTreeItems].
    apply emits_bind; [unfold expandTreeItems_pass; emits_tac; apply Hloop | intros [|]].
    + apply emits_bind; [emits_tac | intros _; exact IH].
    + emits_tac.
Qed.

(** What [run] does with the outcome of its [try] block: after a normal
    completion the [finally] block closes the context; after an exception
    the [catch] block ends the process, and the [finally] block is never
    reached. *)
Lemma run_after_body fuel workspaceName s context s1 rb s2 :
  launchChrome s = Some (Normal context, s1) ->
  run_body fuel workspaceName context s1 = Some (rb, s2) ->
  run fuel workspaceName s =
  match rb with
  | Normal _ =>
      bind (perform (ContextClose context)) (fun _ => console Log MsgContextClosed) s2
  | Throw e => Some (Exit 1, emit (Console Err (MsgUnexpected e)) s2)
  | Exit c => Some (Exit c, s2)
  end.
Proof.
  intros Hlaunch Hbody. unfold run. rewrite bind_unfold, Hlaunch.
  unfold try_finally. rewrite try_catch_unfold, Hbody.
  destruct rb as [[]|e|c]; [| |reflexivity].
  - destruct (bind _ _ s2) as [[[[]|ef|cf] s3]|]; reflexivity.
  - rewrite bind_unfold, console_run. reflexivity.
Qed.

Lemma context_closes_app (evs1 evs2 : list event) :
  context_closes (evs1 ++ evs2) = context_closes evs1 + context_closes evs2.
Proof.
  induction evs1 as [|[l m|c] evs1 IH]; cbn; [reflexivity | exact IH |].
  destruct c; cbn; rewrite ?IH; reflexivity.
Qed.

Lemma context_closes_quiet (evs : list event) :
  forallb not_context_close evs = true -> context_closes evs = 0.
Proof.
  induction evs as [|[l m|c] evs IH]; cbn; [reflexivity | exact IH |].
  destruct c; cbn; first [exact IH | discriminate].
Qed.

(** How often a run closes the context: once when the [try] block of [run]
    completes normally, and not at all when it throws or ends the
    process. *)
Lemma run_context_closes fuel workspaceName s context s1 rb s2 r s' :
  launchChrome s = Some (Normal context, s1) ->
  run_body fuel workspaceName context s1 = Some (rb, s2) ->
  run fuel workspaceName s = Some (r, s') ->
  exists evs,
    trace s' = trace s ++ evs
    /\ context_closes evs = match rb with Normal _ => 1 | _ => 0 end.
Proof.
  intros Hlaunch Hbody Hrun.
  rewrite (run_after_body _ _ _ _ _ _ _ Hlaunch Hbody) in Hrun.
  assert (Hl : emits (W := W) not_context_close launchChrome)
    by (unfold launchChrome; emits_tac).
  destruct (Hl _ _ _ Hlaunch) as (evs1 & Ht1 & Hq1).
  destruct (emits_run_body _ _ _ _ _ _ Hbody) as (evs2 & Ht2 & Hq2).
  apply context_closes_quiet in Hq1, Hq2.
  destruct rb as [[]|e|c].
  - rewrite bind_unfold in Hrun. unfold perform in Hrun.
    destruct (respond (ContextClose context) (world s2)) as [[v|e] w3];
      cbv beta iota in Hrun; [rewrite console_run in Hrun|]; injection Hrun as <- <-.
    + exists (evs1 ++ evs2 ++ [Call (ContextClose context); Console Log MsgContextClosed]).
      cbn [emit trace]. rewrite Ht2, Ht1, !context_closes_app, Hq1, Hq2, <- !app_assoc.
      split; reflexivity.
    + exists (evs1 ++ evs2 ++ [Call (ContextClose context)]).
      cbn [trace]. rewrite Ht2, Ht1, !context_closes_app, Hq1, Hq2, <- !app_assoc.
      split; reflexivity.
  - injection Hrun as <- <-.
    exists (evs1 ++ evs2 ++ [Console Err (MsgUnexpected e)]).
    cbn [emit trace]. rewrite Ht2, Ht1, !context_closes_app, Hq1, Hq2, <- !app_assoc.
    split; reflexivity.
  - injection Hrun as <- <-. exists (evs1 ++ evs2).
    rewrite Ht2, Ht1, !context_closes_app, Hq1, Hq2, <- !app_assoc.
    split; reflexivity.
Qed.

(** Whenever the wait for an expand affordance is rejected, the rejection
    leaves [expandTreeItems]. *)
Lemma expandTreeItems_wait_rejected fuel page s e w' :
  respond (WaitForSelector page SEL_EXPAND_ICON (Some 10000%N)) (world s)
    = (Rejected e, w') ->
  expandTreeItems (S fuel) page s
  = Some (Throw e,
          State w'
            (trace s ++ [Console Log MsgExpandingTree;
                         Call (WaitForSelector page SEL_EXPAND_ICON (Some 10000%N))])
            (expandedItemsKeys s)).
Proof.
  intros Hwait. cbn [expandTreeItems]. unfold expandTreeItems_pass. mrun.
  rewrite <- app_assoc. reflexivity.
Qed.

(** Whenever the wait for the popup is rejected after the PDF option was
    found, the rejection leaves the pipeline. *)
Lemma exportItemToPDF_option_popup_rejected context page index s exportButton s1 e w2 v w3 :
  findPDFOption page s = Some (Normal (Some exportButton), s1) ->
  respond (WaitForEventPage context) (world s1) = (Rejected e, w2) ->
  respond (HandleClick exportButton) w2 = (Resolved v, w3) ->
  exportItemToPDF_option context page index s
  = Some (Throw e,
          State w3
            (trace s1 ++ [Console Log MsgClickingPDF;
                          Call (WaitForEventPage context);
                          Call (HandleClick exportButton)])
            (expandedItemsKeys s1)).
Proof.
  intros Hfind Hwait Hclick. unfold exportItemToPDF_option.
  rewrite bind_unfold, Hfind. mrun. unfold promise_all2.
  rewrite await_unfold. mrun. rewrite <- !app_assoc. reflexivity.
Qed.

(** ** Each label is clicked at most once in a run *)

Lemma keeps_clicks_recorded_append s w evs :
  icon_clicks evs = [] ->
  keeps_clicks_recorded s (State w (trace s ++ evs) (expandedItemsKeys s)).
Proof.
  intros Hq [Hnodup Hin]. split; cbn; rewrite icon_clicks_app, Hq, app_nil_r; assumption.
Qed.

Lemma keeps_clicks_recorded_console l m :
  steps (W := W) keeps_clicks_recorded (console l m).
Proof.
  intros s r s' [= <- <-]. apply (keeps_clicks_recorded_append s (world s) [_]).
  reflexivity.
Qed.

Lemma keeps_clicks_recorded_perform c :
  not_icon_click (Call c) = true ->
  steps (W := W) keeps_clicks_recorded (perform c).
Proof.
  intros Hc s r s' Hrun. unfold perform in Hrun.
  destruct (respond c (world s)) as [[v|e] w']; injection Hrun as <- <-;
    (apply (keeps_clicks_recorded_append s w' [_]); destruct c; first [reflexivity | discriminate Hc]).
Qed.

Lemma keeps_clicks_recorded_expand fuel page :
  steps (W := W) keeps_clicks_recorded (expandTreeItems fuel page).
Proof.
  intros s r s' Hrun [Hnodup Hin].
  apply expandTreeItems_expansion_step in Hrun as (evs & [Ht Hn Hf Hm _ _]).
  split; rewrite Ht, icon_clicks_app.
  - apply NoDup_app. split; [exact Hnodup|]. split; [|exact Hn].
    intros label Hold Hnew. exact (Hf label Hnew (Hin label Hold)).
  - intros label Hl. rewrite Hm.
    apply elem_of_app in Hl as [Hl | Hl].
    + apply elem_of_union_l, Hin, Hl.
    + apply elem_of_union_r, elem_of_list_to_set, Hl.
Qed.

Lemma keeps_clicks_recorded_script fuel chrome_found argv2 :
  steps (W := W) keeps_clicks_recorded (script fuel chrome_found argv2).
Proof.
  assert (Hrefl : forall s, keeps_clicks_recorded s s) by (intros s Hs; exact Hs).
  assert (Htrans : forall s1 s2 s3 : state (W := W),
            keeps_clicks_recorded s1 s2 -> keeps_clicks_recorded s2 s3 ->
            keeps_clicks_recorded s1 s3) by (intros s1 s2 s3 H1 H2 Hs; auto).
  assert (Hexit : steps (W := W) keeps_clicks_recorded
            (bind (console Err MsgUsage) (fun _ => process_exit (A := unit) 1))).
  { apply (steps_bind _ Htrans); [apply keeps_clicks_recorded_console | intros _].
    apply steps_process_exit, Hrefl. }
  unfold script. destruct chrome_found; cbn [negb].
  2:{ apply (steps_bind _ Htrans); [apply keeps_clicks_recorded_console | intros _].
      apply steps_process_exit, Hrefl. }
  destruct argv2 as [[|c workspaceName]|]; [exact Hexit | | exact Hexit].
  apply (steps_bind _ Htrans); [|intros _; apply keeps_clicks_recorded_console].
  unfold run.
  apply (steps_bind _ Htrans); [|intros context].
  { apply steps_launchChrome; auto using keeps_clicks_recorded_console.
    intros c0 Hc _. apply keeps_clicks_recorded_perform, Hc. }
  apply (steps_try_finally _ Htrans).
  - apply (steps_try_catch _ Htrans).
    + apply steps_run_body; auto using keeps_clicks_recorded_console,
        keeps_clicks_recorded_expand.
      intros c0 Hc _. apply keeps_clicks_recorded_perform, Hc.
    + intros e. apply (steps_bind _ Htrans); [apply keeps_clicks_recorded_console | intros _].
      apply steps_process_exit, Hrefl.
  - apply (steps_bind _ Htrans); [|intros _; apply keeps_clicks_recorded_console].
    apply keeps_clicks_recorded_perform. reflexivity.
Qed.

(** C4: a label that is in the memo set is never clicked again.  In any call
    of [expandTreeItems] that finishes, the expand affordances that get
    clicked carry pairwise distinct labels, no label that is in the memo set
    at entry is clicked, and the memo set afterwards is the one at entry
    plus exactly the clicked labels.  Over a whole run of the script, which
    starts with the memo set empty, every label is clicked at most once. *)
Theorem expand_clicks_each_label_once :
  (forall fuel page s r s',
     expandTreeItems fuel page s = Some (r, s') ->
     exists evs,
       trace s' = trace s ++ evs
       /\ NoDup (icon_clicks evs)
       /\ (forall label, label ∈ expandedItemsKeys s -> label ∉ icon_clicks evs)
       /\ expandedItemsKeys s' = expandedItemsKeys s ∪ list_to_set (icon_clicks evs))
  /\ (forall fuel chrome_found argv2 w r s',
        script fuel chrome_found argv2 (State w [] ∅) = Some (r, s') ->
        NoDup (icon_clicks (trace s'))).
Proof.
  split.
  - intros fuel page s r s' Hrun.
    apply expandTreeItems_expansion_step in Hrun as (evs & [Ht Hn Hf Hm _ _]).
    exists evs. split; [exact Ht|]. split; [exact Hn|]. split; [|exact Hm].
    intros label Hin Hclicked. exact (Hf label Hclicked Hin).
  - intros fuel chrome_found argv2 w r s' Hrun.
    apply keeps_clicks_recorded_script in Hrun. apply Hrun.
    split; cbn; [constructor|]. intros label Hl. apply elem_of_nil in Hl. destruct Hl.
Qed.

End RunFacts.

(** ** The properties the code does not have, at the inputs that show it *)

(** C1: [exportItemToPDF] does not turn every failure into "skipped".  The
    item is selected, the menu opens and holds the PDF option, but no popup
    opens and [context.waitForEvent("page")] times out: the rejection leaves
    [exportItemToPDF], and in [run] it ends the whole run with exit code 1
    before the second item is looked at. *)
Theorem exportItemToPDF_popup_timeout_escapes :
  completion_of (exportItemToPDF 0 1 30 0 (start tape_popup_timeout))
    = Some (Throw TimeoutError)
  /\ (let r := script 5 true (Some (js "Demo")) (start tape_demo_popup_timeout) in
      completion_of r = Some (Exit 1)
      /\ pipeline_items (trace_of r) = [30]
      /\ last (console_lines (trace_of r)) = Some (Err, MsgUnexpected TimeoutError)).
Proof. vm_compute. tauto. Qed.

(** C2: the session is not closed on every exit path.  The workspace is not
    found, the error is caught at the top level of [run], and
    [process.exit(1)] in the [catch] block ends the process: the browser was
    launched, and [context.close()] is never called. *)
Theorem run_fatal_error_skips_teardown :
  let r := script 5 true (Some (js "Nonexistent")) (start tape_workspace_missing) in
  completion_of r = Some (Exit 1)
  /\ calls (trace_of r)
     = [LaunchPersistentContext; NewPage 0; Goto 1 LOOP_URL;
        WaitForSelector 1 (workspace_selector (js "Nonexistent")) None]
  /\ context_closes (trace_of r) = 0
  /\ last (console_lines (trace_of r)) = Some (Err, MsgUnexpected TimeoutError).
Proof. vm_compute. tauto. Qed.

(** C5: a tree without any expand affordance is not treated as fully
    expanded.  The bounded wait at the start of the pass times out, the
    rejection leaves [expandTreeItems], and the run ends with exit code 1
    without having handed a single item to the export pipeline. *)
Theorem expandTreeItems_no_affordance_escapes :
  completion_of (expandTreeItems 5 1 (start [Rejected TimeoutError]))
    = Some (Throw TimeoutError)
  /\ (let r := script 5 true (Some (js "Demo")) (start tape_flat_workspace) in
      completion_of r = Some (Exit 1)
      /\ pipeline_items (trace_of r) = []
      /\ ~ In (Log, MsgAllExpanded) (console_lines (trace_of r))
      /\ last (console_lines (trace_of r)) = Some (Err, MsgUnexpected TimeoutError)).
Proof.
  vm_compute. repeat split; try reflexivity.
  intros Hin. repeat (destruct Hin as [Hin | Hin]; [discriminate Hin|]). exact Hin.
Qed.

(** * Further properties of the script *)

(** ** The text callbacks *)

Section Callbacks.
Local Open Scope N_scope.

Lemma includes_skip (c a : N) (s t : jsstring) :
  a <> c -> includes (c :: s) (a :: t) = includes s (a :: t).
Proof.
  intros Hne. cbn. destruct (N.eqb_spec a c) as [Heq | _]; [destruct (Hne Heq)|].
  reflexivity.
Qed.

Lemma includes_trimStart (s t : jsstring) a :
  is_js_space a = false ->
  includes (trimStart s) (a :: t) = includes s (a :: t).
Proof.
  intros Ha. induction s as [|c s IH]; [reflexivity|]. cbn [trimStart].
  destruct (is_js_space c) eqn:Hc; [|reflexivity].
  rewrite IH. symmetry. apply includes_skip. intros ->. congruence.
Qed.

Lemma includes_rev (s t : jsstring) : includes (rev s) (rev t) = includes s t.
Proof.
  assert (Hone : forall s t : jsstring,
            includes s t = true -> includes (rev s) (rev t) = true).
  { intros s0 t0. rewrite !includes_spec. intros (pre & post & ->).
    exists (rev post), (rev pre). rewrite !rev_app_distr, <- app_assoc. reflexivity. }
  destruct (includes s t) eqn:Hst.
  - apply Hone, Hst.
  - destruct (includes (rev s) (rev t)) eqn:Hrev; [|reflexivity].
    apply Hone in Hrev. rewrite !rev_involutive in Hrev. congruence.
Qed.

Lemma includes_trimEnd (s t : jsstring) a :
  is_js_space a = false ->
  includes (trimEnd s) (t ++ [a]) = includes s (t ++ [a]).
Proof.
  intros Ha. unfold trimEnd.
  rewrite <- (includes_rev (rev _)), rev_involutive, rev_app_distr. cbn [rev app].
  rewrite includes_trimStart by exact Ha.
  change (a :: rev t) with (rev [a] ++ rev t). rewrite <- rev_app_distr.
  apply includes_rev.
Qed.

(** X7: the [trim()] in the callback of [findPDFOption] never changes the
    answer of the test: an entry is taken for the PDF option exactly when
    its raw text content contains PDF. *)
Theorem trim_keeps_PDF_test (t : jsstring) :
  includes (trimmed_text (Some t)) PDF = includes t PDF.
Proof.
  cbn [trimmed_text]. rewrite or_empty_id. unfold trim.
  change PDF with ([80; 68] ++ [70]). rewrite includes_trimEnd by reflexivity.
  change ([80; 68] ++ [70]) with (80 :: [68; 70]).
  apply includes_trimStart. reflexivity.
Qed.

Lemma forallb_rev (f : N -> bool) (l : jsstring) : forallb f (rev l) = forallb f l.
Proof.
  induction l as [|c l IH]; [reflexivity|]. cbn [rev forallb].
  rewrite forallb_app, IH. cbn. rewrite andb_true_r. apply andb_comm.
Qed.

Lemma trimStart_spaces (p s : jsstring) :
  forallb is_js_space p = true -> trimStart (p ++ s) = trimStart s.
Proof.
  induction p as [|c p IH]; [reflexivity|]. cbn [forallb app trimStart].
  intros [Hc Hp]%andb_true_iff. rewrite Hc. exact (IH Hp).
Qed.

Lemma trimEnd_spaces (s p : jsstring) :
  forallb is_js_space p = true -> trimEnd (s ++ p) = trimEnd s.
Proof.
  intros Hp. unfold trimEnd. rewrite rev_app_distr, trimStart_spaces; [reflexivity|].
  rewrite forallb_rev. exact Hp.
Qed.

Lemma trimStart_head (s : jsstring) c rest :
  trimStart s = c :: rest -> is_js_space c = false.
Proof.
  induction s as [|d s IH]; [discriminate|]. cbn [trimStart].
  destruct (is_js_space d) eqn:Hd; [exact IH|]. intros [= -> _]. exact Hd.
Qed.

(** [trimStart] and [trimEnd] only take white space away. *)
Lemma trimStart_split (s : jsstring) :
  exists p, s = p ++ trimStart s /\ forallb is_js_space p = true.
Proof.
  induction s as [|c s (p & Hs & Hp)]; [exists []; split; reflexivity|].
  cbn [trimStart]. destruct (is_js_space c) eqn:Hc.
  - exists (c :: p). cbn. rewrite Hc, Hp, <- Hs. split; reflexivity.
  - exists []. split; reflexivity.
Qed.

Lemma trimEnd_split (s : jsstring) :
  exists p, s = trimEnd s ++ p /\ forallb is_js_space p = true.
Proof.
  destruct (trimStart_split (rev s)) as (p & Hs & Hp). exists (rev p).
  rewrite forallb_rev. split; [|exact Hp]. unfold trimEnd.
  rewrite <- rev_app_distr, <- Hs, rev_involutive. reflexivity.
Qed.

Lemma trim_pad (p1 t p2 : jsstring) :
  forallb is_js_space p1 = true -> forallb is_js_space p2 = true ->
  trim (p1 ++ t ++ p2) = trim t.
Proof.
  intros H1 H2. unfold trim. rewrite trimStart_spaces by exact H1.
  induction t as [|c t IH]; cbn [app].
  - rewrite <- (app_nil_r p2), trimStart_spaces by exact H2. reflexivity.
  - cbn [trimStart]. destruct (is_js_space c); [exact IH|].
    change (c :: t ++ p2) with ((c :: t) ++ p2). apply trimEnd_spaces, H2.
Qed.

Lemma trim_ends (s : jsstring) c rest :
  trim s = c :: rest ->
  is_js_space c = false
  /\ exists d, last (c :: rest) = Some d /\ is_js_space d = false.
Proof.
  unfold trim. intros Htrim.
  destruct (trimEnd_split (trimStart s)) as (p & Hsplit & _).
  rewrite Htrim in Hsplit. split.
  - apply (trimStart_head s c (rest ++ p)). exact Hsplit.
  - unfold trimEnd in Htrim.
    destruct (trimStart (rev (trimStart s))) as [|d l] eqn:Hrev; [discriminate|].
    exists d. split; [|exact (trimStart_head _ _ _ Hrev)].
    rewrite <- Htrim. cbn [rev]. apply last_snoc.
Qed.

(** [trim] only takes white space away, at both ends. *)
Lemma trim_split (t : jsstring) :
  exists p1 p2,
    t = p1 ++ trim t ++ p2
    /\ forallb is_js_space p1 = true /\ forallb is_js_space p2 = true.
Proof.
  destruct (trimStart_split t) as (p1 & Ht & Hp1).
  destruct (trimEnd_split (trimStart t)) as (p2 & Hs & Hp2).
  exists p1, p2. unfold trim. rewrite <- Hs, <- Ht. auto.
Qed.

(** A text without white space at its ends is left as it is. *)
Lemma trim_fixed (c : N) (rest : jsstring) d :
  is_js_space c = false -> last (c :: rest) = Some d -> is_js_space d = false ->
  trim (c :: rest) = c :: rest.
Proof.
  intros Hc Hlast Hd. unfold trim. cbn [trimStart]. rewrite Hc. unfold trimEnd.
  destruct (rev (c :: rest)) as [|d' l] eqn:Hrev.
  { apply (f_equal (@length N)) in Hrev. rewrite length_rev in Hrev. discriminate. }
  assert (Hd' : d' = d).
  { apply (f_equal (@rev N)) in Hrev. rewrite rev_involutive in Hrev. cbn [rev] in Hrev.
    rewrite Hrev, last_snoc in Hlast. injection Hlast as ->. reflexivity. }
  subst d'. cbn [trimStart]. rewrite Hd, <- Hrev. apply rev_involutive.
Qed.

(** X8: the label [expandTreeItems] computes for an affordance is the text
    of its parent without the white space around it.  A missing parent and
    a missing text give the empty label.  For a text, the label is what is
    left of it when white space, and nothing else, is taken away at both
    ends: the text is the label with white space before and after it, and
    a label that is not empty neither starts nor ends with white space.  So
    a text of white space only gives the empty label, a text without white
    space at its ends is its own label, and white space around a text never
    changes the label: nodes whose texts differ only in surrounding white
    space, and all nodes without visible text, share one memo key. *)
Theorem parent_label_normalised :
  parent_label None = []
  /\ parent_label (Some None) = []
  /\ (forall t, exists p1 p2,
        t = p1 ++ parent_label (Some (Some t)) ++ p2
        /\ forallb is_js_space p1 = true /\ forallb is_js_space p2 = true)
  /\ (forall parent c rest,
        parent_label parent = c :: rest ->
        is_js_space c = false
        /\ exists d, last (c :: rest) = Some d /\ is_js_space d = false)
  /\ (forall t, forallb is_js_space t = true -> parent_label (Some (Some t)) = [])
  /\ (forall c rest d,
        is_js_space c = false -> last (c :: rest) = Some d -> is_js_space d = false ->
        parent_label (Some (Some (c :: rest))) = c :: rest)
  /\ (forall p1 t p2,
        forallb is_js_space p1 = true -> forallb is_js_space p2 = true ->
        parent_label (Some (Some (p1 ++ t ++ p2))) = parent_label (Some (Some t))).
Proof.
  split; [reflexivity|]. split; [reflexivity|]. split; [|split; [|split; [|split]]].
  - intros t. cbn. rewrite or_empty_id. apply trim_split.
  - intros [[t|]|] c rest; cbn; [|discriminate..].
    rewrite or_empty_id. apply trim_ends.
  - intros t Ht. cbn. rewrite or_empty_id.
    pose proof (trim_pad t [] [] Ht eq_refl) as Hpad.
    cbn [app] in Hpad. rewrite app_nil_r in Hpad. exact Hpad.
  - intros c rest d Hc Hlast Hd. cbn [parent_label trimmed_text].
    rewrite or_empty_id. exact (trim_fixed c rest d Hc Hlast Hd).
  - intros p1 t p2 H1 H2. cbn. rewrite !or_empty_id. apply trim_pad; assumption.
Qed.

End Callbacks.

(** ** The two guarded stages of the export pipeline *)

Section Stages.
Context {W : Type} `{!Driver W}.
Implicit Types (s : state (W := W)) (w : W).

(** Bring a finished stage into the form [trace s ++ evs] and name its
    result. *)
Ltac stage_done :=
  mrun; rewrite <- ?app_assoc;
  eexists _, _, _; split; [reflexivity|]; split; [reflexivity|];
  split; [reflexivity|]; cbn.

(** The menu stage never throws: it answers [true] after the three calls
    and "menu opened", and [false] right after the warning. *)
Lemma exportItemToPDF_menu_cases page index s :
  exists b s' evs,
    exportItemToPDF_menu page index s = Some (Normal b, s')
    /\ trace s' = trace s ++ evs
    /\ expandedItemsKeys s' = expandedItemsKeys s
    /\ calls evs `prefix_of`
         [WaitForSelector page SEL_MORE_OPTIONS (Some 10000%N);
          PageClick page SEL_MORE_OPTIONS;
          WaitForSelector page SEL_MENUITEM None]
    /\ exported_lines evs = 0
    /\ skipped_lines evs = (if b then 0 else 1)
    /\ if b
       then calls evs = [WaitForSelector page SEL_MORE_OPTIONS (Some 10000%N);
                         PageClick page SEL_MORE_OPTIONS;
                         WaitForSelector page SEL_MENUITEM None]
            /\ last evs = Some (Console Log MsgMenuOpened)
       else last evs = Some (Console Warn (MsgSkipNoMenu (index + 1))).
Proof.
  unfold exportItemToPDF_menu.
  destruct (respond (WaitForSelector page SEL_MORE_OPTIONS (Some 10000%N)) (world s))
    as [[v1|e1] w1] eqn:H1.
  2:{ stage_done. split; [eexists; reflexivity | tauto]. }
  destruct (respond (PageClick page SEL_MORE_OPTIONS) w1) as [[v2|e2] w2] eqn:H2.
  2:{ stage_done. split; [eexists; reflexivity | tauto]. }
  destruct (respond (WaitForSelector page SEL_MENUITEM None) w2) as [[v3|e3] w3] eqn:H3.
  2:{ stage_done. split; [eexists; reflexivity | tauto]. }
  stage_done. split; [reflexivity | tauto].
Qed.

(** What the menu stage answers, by the replies to its three calls. *)
Lemma exportItemToPDF_menu_replies page index s b s' :
  exportItemToPDF_menu page index s = Some (Normal b, s') ->
  let c1 := WaitForSelector page SEL_MORE_OPTIONS (Some 10000%N) in
  let c2 := PageClick page SEL_MORE_OPTIONS in
  let c3 := WaitForSelector page SEL_MENUITEM None in
  let evs := drop (length (trace s)) (trace s') in
  match respond c1 (world s) with
  | (Rejected _, w1) => b = false /\ world s' = w1 /\ calls evs = [c1]
  | (Resolved _, w1) =>
      match respond c2 w1 with
      | (Rejected _, w2) => b = false /\ world s' = w2 /\ calls evs = [c1; c2]
      | (Resolved _, w2) =>
          match respond c3 w2 with
          | (Rejected _, w3) => b = false /\ world s' = w3 /\ calls evs = [c1; c2; c3]
          | (Resolved _, w3) => b = true /\ world s' = w3 /\ calls evs = [c1; c2; c3]
          end
      end
  end.
Proof.
  unfold exportItemToPDF_menu. cbv zeta.
  destruct (respond (WaitForSelector page SEL_MORE_OPTIONS (Some 10000%N)) (world s))
    as [[v1|e1] w1] eqn:H1.
  2:{ mrun. intros [= <- <-]. cbn [trace world]. rewrite <- ?app_assoc, drop_app_length.
      repeat split. }
  destruct (respond (PageClick page SEL_MORE_OPTIONS) w1) as [[v2|e2] w2] eqn:H2.
  2:{ mrun. intros [= <- <-]. cbn [trace world]. rewrite <- ?app_assoc, drop_app_length.
      repeat split. }
  destruct (respond (WaitForSelector page SEL_MENUITEM None) w2) as [[v3|e3] w3] eqn:H3.
  2:{ mrun. intros [= <- <-]. cbn [trace world]. rewrite <- ?app_assoc, drop_app_length.
      repeat split. }
  mrun. intros [= <- <-]. cbn [trace world]. rewrite <- ?app_assoc, drop_app_length.
  repeat split.
Qed.

(** X3: the [try] block that opens the options menu never lets an exception
    out.  It makes its three calls in order up to the first one that is
    rejected.  When all three resolve it logs "menu opened" and the pipeline
    goes on; as soon as one is rejected it makes no further call, warns
    "Options menu not available", and [exportItemToPDF] returns "skipped"
    right there. *)
Theorem options_menu_failure_is_skipped context page item index s v w1 :
  respond (HandleClick item) (world s) = (Resolved v, w1) ->
  let s1 := State w1
              (trace s ++ [Console Log (MsgClickingItem (index + 1));
                           Call (HandleClick item)])
              (expandedItemsKeys s) in
  let c1 := WaitForSelector page SEL_MORE_OPTIONS (Some 10000%N) in
  let c2 := PageClick page SEL_MORE_OPTIONS in
  let c3 := WaitForSelector page SEL_MENUITEM None in
  exists b s2 evs,
    exportItemToPDF_menu page index s1 = Some (Normal b, s2)
    /\ trace s2 = trace s1 ++ evs
    /\ calls evs `prefix_of` [c1; c2; c3]
    /\ (b = true ->
        length (calls evs) = 3 /\ last evs = Some (Console Log MsgMenuOpened)
        /\ exportItemToPDF context page item index s
           = exportItemToPDF_option context page index s2)
    /\ (b = false ->
        last evs = Some (Console Warn (MsgSkipNoMenu (index + 1)))
        /\ exportItemToPDF context page item index s = Some (Normal skipped, s2))
    /\ (forall e w2,
          respond c1 w1 = (Rejected e, w2) ->
          b = false /\ world s2 = w2 /\ calls evs = [c1])
    /\ (forall v1 w2 e w3,
          respond c1 w1 = (Resolved v1, w2) ->
          respond c2 w2 = (Rejected e, w3) ->
          b = false /\ world s2 = w3 /\ calls evs = [c1; c2])
    /\ (forall v1 w2 v2 w3 e w4,
          respond c1 w1 = (Resolved v1, w2) ->
          respond c2 w2 = (Resolved v2, w3) ->
          respond c3 w3 = (Rejected e, w4) ->
          b = false /\ world s2 = w4 /\ calls evs = [c1; c2; c3])
    /\ (forall v1 w2 v2 w3 v3 w4,
          respond c1 w1 = (Resolved v1, w2) ->
          respond c2 w2 = (Resolved v2, w3) ->
          respond c3 w3 = (Resolved v3, w4) ->
          b = true /\ world s2 = w4 /\ calls evs = [c1; c2; c3]).
Proof.
  intros Hclick s1 c1 c2 c3.
  destruct (exportItemToPDF_menu_cases page index s1)
    as (b & s2 & evs & Hmenu & Ht & _ & Hpre & _ & _ & Hb).
  pose proof (exportItemToPDF_menu_replies page index s1 b s2 Hmenu) as Hreplies.
  cbv zeta in Hreplies. rewrite Ht, drop_app_length in Hreplies.
  cbn [world s1] in Hreplies. fold c1 c2 c3 in Hreplies.
  assert (Hstage : exportItemToPDF context page item index s
                   = (if b then exportItemToPDF_option context page index s2
                      else Some (Normal skipped, s2))).
  { unfold exportItemToPDF. mrun. rewrite <- app_assoc. cbn [app].
    unfold s1 in Hmenu. rewrite Hmenu. destruct b; reflexivity. }
  exists b, s2, evs. split; [exact Hmenu|]. split; [exact Ht|]. split; [exact Hpre|].
  split; [|split].
  - intros ->. destruct Hb as [Hcalls Hlast]. rewrite Hcalls.
    split; [reflexivity|]. split; [exact Hlast | exact Hstage].
  - intros ->. split; [exact Hb | exact Hstage].
  - split; [|split; [|split]].
    + intros e w2 H1. rewrite H1 in Hreplies. exact Hreplies.
    + intros v1 w2 e w3 H1 H2. rewrite H1, H2 in Hreplies. exact Hreplies.
    + intros v1 w2 v2 w3 e w4 H1 H2 H3. rewrite H1, H2, H3 in Hreplies. exact Hreplies.
    + intros v1 w2 v2 w3 v3 w4 H1 H2 H3. rewrite H1, H2, H3 in Hreplies. exact Hreplies.
Qed.

(** The popup stage never throws: it answers "exported" after its four
    calls, the last of them the closing of the popup, and "skipped" right
    after the error line. *)
Lemma exportItemToPDF_print_cases popup index s :
  exists o s' evs,
    exportItemToPDF_print popup index s = Some (Normal o, s')
    /\ trace s' = trace s ++ evs
    /\ expandedItemsKeys s' = expandedItemsKeys s
    /\ match o with
       | exported =>
           calls evs = [WaitForLoadState popup; InstallPrintHook popup;
                        WaitForPrinted popup (Some 10000%N); PageClose popup]
           /\ last evs = Some (Console Log (MsgExported (index + 1)))
           /\ exported_lines evs = 1 /\ skipped_lines evs = 0
       | skipped =>
           (exists e, last evs = Some (Console Err (MsgErrorExporting (index + 1) e)))
           /\ exported_lines evs = 0 /\ skipped_lines evs = 1
           /\ (PageClose popup ∉ calls evs
               \/ last (calls evs) = Some (PageClose popup))
       end.
Proof.
  unfold exportItemToPDF_print, handlePopupPrint.
  destruct (respond (WaitForLoadState popup) (world s)) as [[v1|e1] w1] eqn:H1.
  2:{ stage_done. split; [eexists; reflexivity|]. split; [reflexivity|].
      split; [reflexivity|]. left. set_solver. }
  destruct (respond (InstallPrintHook popup) w1) as [[v2|e2] w2] eqn:H2.
  2:{ stage_done. split; [eexists; reflexivity|]. split; [reflexivity|].
      split; [reflexivity|]. left. set_solver. }
  destruct (respond (WaitForPrinted popup (Some 10000%N)) w2) as [[v3|e3] w3] eqn:H3;
    (destruct (respond (PageClose popup) w3) as [[v4|e4] w4] eqn:H4;
     [stage_done; tauto
     |stage_done; split; [eexists; reflexivity|]; split; [reflexivity|];
      split; [reflexivity|]; right; reflexivity]).
Qed.

(** X4: the [try] block around the popup never lets an exception out, and it
    tells the truth about the popup.  The outcome is "exported" only after
    all four calls were made, [popup.close()] last, and "Exported item" was
    logged.  Otherwise the error is logged and the outcome is "skipped";
    then either the popup was never closed (the load or the hook failed), or
    closing it was the call that failed. *)
Theorem popup_stage_outcome popup index s :
  exists o s' evs,
    exportItemToPDF_print popup index s = Some (Normal o, s')
    /\ trace s' = trace s ++ evs
    /\ (o = exported ->
        calls evs = [WaitForLoadState popup; InstallPrintHook popup;
                     WaitForPrinted popup (Some 10000%N); PageClose popup]
        /\ last evs = Some (Console Log (MsgExported (index + 1))))
    /\ (o = skipped ->
        (exists e, last evs = Some (Console Err (MsgErrorExporting (index + 1) e)))
        /\ (PageClose popup ∉ calls evs
            \/ last (calls evs) = Some (PageClose popup))).
Proof.
  destruct (exportItemToPDF_print_cases popup index s)
    as (o & s' & evs & Hrun & Ht & _ & Ho).
  exists o, s', evs. split; [exact Hrun|]. split; [exact Ht|].
  split; intros ->; tauto.
Qed.

(** ** The option search reads no entry beyond the one it returns *)

Lemma findPDFOption_loop_reads_prefix (m : menu) s :
  reads (world s) m ->
  exists r s' n,
    findPDFOption_loop m.*1 s = Some (Normal r, s')
    /\ trace s' = trace s ++ ((fun item => Call (TextContent item)) <$> take n m.*1)
    /\ match r with
       | Some item => 1 <= n /\ m.*1 !! (n - 1) = Some item
       | None => n = length m
       end.
Proof.
  revert s. induction m as [|[h t] m IH]; intros s Hreads.
  - exists None, s, 0. cbn. rewrite app_nil_r. auto.
  - destruct Hreads as (w' & Hresp & Hreads).
    cbn [fmap list_fmap fst findPDFOption_loop]. mrun. cbn [as_text]. mrun.
    destruct (includes (trimmed_text t) PDF).
    + eexists (Some h), _, 1. split; [reflexivity|]. cbn. auto.
    + lazymatch goal with
      | |- context [findPDFOption_loop _ ?s1] =>
          destruct (IH s1 Hreads) as (r & s' & n & Hrun & Ht & Hr)
      end.
      exists r, s', (S n). split; [exact Hrun|]. split.
      * rewrite Ht. cbn. rewrite <- app_assoc. reflexivity.
      * destruct r as [item|]; [|cbn; lia].
        destruct Hr as [Hn Hitem]. split; [lia|].
        destruct n as [|n]; [lia|]. cbn in *.
        rewrite Nat.sub_0_r in Hitem. exact Hitem.
Qed.

(** X6: [findPDFOption] stops at the entry it returns.  On a rendered menu it
    queries the entries once and then reads their text in menu order up to
    and including the returned entry; the entries after it are never read.
    When it returns [null] it has read every entry (none, for an empty
    menu). *)
Theorem findPDFOption_reads_up_to_match page (m : menu) s :
  renders page (world s) m ->
  exists r s' n,
    findPDFOption page s = Some (Normal r, s')
    /\ trace s' = trace s ++ Call (QueryAll page SEL_MENUITEM)
                   :: ((fun item => Call (TextContent item)) <$> take n m.*1)
    /\ match r with
       | Some item => 1 <= n /\ m.*1 !! (n - 1) = Some item
       | None => n = length m
       end.
Proof.
  intros (w' & Hquery & Hreads). unfold findPDFOption. mrun. cbn [as_handles]. mrun.
  lazymatch goal with
  | |- context [findPDFOption_loop _ ?s1] =>
      destruct (findPDFOption_loop_reads_prefix m s1 Hreads) as (r & s' & n & Hrun & Ht & Hr)
  end.
  exists r, s', n. split; [exact Hrun|]. split; [|exact Hr].
  rewrite Ht. cbn [trace]. rewrite <- app_assoc. reflexivity.
Qed.

(** ** Where an exception can leave the export pipeline *)

Lemma exported_lines_app (evs1 evs2 : list event) :
  exported_lines (evs1 ++ evs2) = exported_lines evs1 + exported_lines evs2.
Proof.
  induction evs1 as [|[l m|c] evs1 IH]; cbn; [reflexivity | | exact IH].
  destruct l, m; cbn; rewrite ?IH; reflexivity.
Qed.

Lemma skipped_lines_app (evs1 evs2 : list event) :
  skipped_lines (evs1 ++ evs2) = skipped_lines evs1 + skipped_lines evs2.
Proof.
  induction evs1 as [|[l m|c] evs1 IH]; cbn; [reflexivity | | exact IH].
  destruct l, m; cbn; rewrite ?IH; reflexivity.
Qed.

Lemma menu_read_lines (evs : list event) :
  forallb menu_read evs = true -> exported_lines evs = 0 /\ skipped_lines evs = 0.
Proof.
  induction evs as [|[l m|c] evs IH]; cbn; [auto | discriminate |].
  destruct c; cbn; first [discriminate | exact IH].
Qed.

Lemma menu_read_last (evs : list event) e :
  forallb menu_read evs = true -> last evs = Some e ->
  exists c, e = Call c /\ unguarded_call c = true.
Proof.
  intros Hall Hlast. apply last_Some in Hlast as [pre ->].
  rewrite forallb_app in Hall. apply andb_true_iff in Hall as [_ He]. cbn in He.
  destruct e as [l m|c]; [discriminate|]. exists c. split; [reflexivity|].
  destruct c; first [reflexivity | discriminate].
Qed.

(** [findPDFOption] only queries and reads; it always finishes, and when it
    throws, the call it made last is the one that was rejected. *)
Lemma findPDFOption_cases page s :
  exists r s' evs,
    findPDFOption page s = Some (r, s')
    /\ trace s' = trace s ++ evs
    /\ expandedItemsKeys s' = expandedItemsKeys s
    /\ forallb menu_read evs = true
    /\ evs <> []
    /\ forall c, r <> Exit c.
Proof.
  unfold findPDFOption. rewrite bind_unfold, await_unfold, bind_unfold.
  unfold perform at 1.
  destruct (respond (QueryAll page SEL_MENUITEM) (world s)) as [[v|e] w1].
  2:{ eexists _, _, [_]. repeat split; try reflexivity; discriminate. }
  cbv beta iota.
  destruct v as [| | | |menuItems| |]; cbn [as_handles];
    try (eexists _, _, [_]; repeat split; try reflexivity; discriminate).
  rewrite ret_run. cbv beta iota.
  enough (Hloop : forall s1, exists r s' evs,
            findPDFOption_loop menuItems s1 = Some (r, s')
            /\ trace s' = trace s1 ++ evs
            /\ expandedItemsKeys s' = expandedItemsKeys s1
            /\ forallb menu_read evs = true
            /\ forall c, r <> Exit c).
  { lazymatch goal with
    | |- context [findPDFOption_loop _ ?s1] =>
        destruct (Hloop s1) as (r & s' & evs & Hrun & Ht & Hm & Hall & Hexit)
    end.
    exists r, s', (Call (QueryAll page SEL_MENUITEM) :: evs).
    split; [exact Hrun|]. split; [rewrite Ht; cbn; rewrite <- app_assoc; reflexivity|].
    split; [exact Hm|]. split; [exact Hall|]. split; [discriminate | exact Hexit]. }
  induction menuItems as [|item rest IH]; intros s1.
  - exists (Normal None), s1, []. rewrite app_nil_r.
    repeat split; try reflexivity; discriminate.
  - cbn [findPDFOption_loop]. rewrite bind_unfold, await_unfold, bind_unfold.
    unfold perform at 1.
    destruct (respond (TextContent item) (world s1)) as [[v|e] w2].
    2:{ eexists _, _, [_]. repeat split; try reflexivity; discriminate. }
    cbv beta iota.
    destruct v as [| | | | |t|]; cbn [as_text];
      try (eexists _, _, [_]; repeat split; try reflexivity; discriminate).
    rewrite ret_run. cbv beta iota zeta.
    destruct (includes (trimmed_text t) PDF).
    + eexists _, _, [_]. repeat split; try reflexivity; discriminate.
    + lazymatch goal with
      | |- context [findPDFOption_loop rest ?s2] =>
          destruct (IH s2) as (r & s' & evs & Hrun & Ht & Hm & Hall & Hexit)
      end.
      exists r, s', (Call (TextContent item) :: evs).
      split; [exact Hrun|]. split; [rewrite Ht; cbn; rewrite <- app_assoc; reflexivity|].
      split; [exact Hm|]. split; [exact Hall | exact Hexit].
Qed.

(** The two operations awaited together for the popup: both calls are
    always made. *)
Lemma popup_await_cases context exportButton s :
  exists r s',
    promise_all2 (await (WaitForEventPage context) as_page)
                 (perform (HandleClick exportButton)) s = Some (r, s')
    /\ trace s' = trace s ++ [Call (WaitForEventPage context);
                              Call (HandleClick exportButton)]
    /\ expandedItemsKeys s' = expandedItemsKeys s
    /\ forall c, r <> Exit c.
Proof.
  unfold promise_all2. rewrite await_unfold, bind_unfold. unfold perform.
  destruct (respond (WaitForEventPage context) (world s)) as [[v|e] w1];
    [destruct v; cbn [as_page]; unfold ret, throw|];
    cbv beta iota; cbn [world trace expandedItemsKeys];
    (destruct (respond (HandleClick exportButton) w1) as [[v2|e2] w2];
     cbv beta iota; cbn [world trace expandedItemsKeys];
     eexists _, _; (split; [reflexivity|]); rewrite <- app_assoc;
     (split; [reflexivity|]); (split; [reflexivity | discriminate])).
Qed.

(** Everything [exportItemToPDF] can do: it always finishes; an outcome is
    reported by exactly one line of the log; an exception leaves it only
    right after an unguarded call. *)
Lemma exportItemToPDF_cases context page item index s :
  exists r s' evs,
    exportItemToPDF context page item index s = Some (r, s')
    /\ trace s' = trace s ++ evs
    /\ expandedItemsKeys s' = expandedItemsKeys s
    /\ match r with
       | Normal exported => exported_lines evs = 1 /\ skipped_lines evs = 0
       | Normal skipped => exported_lines evs = 0 /\ skipped_lines evs = 1
       | Throw _ =>
           exported_lines evs = 0 /\ skipped_lines evs = 0
           /\ exists c, last evs = Some (Call c) /\ unguarded_call c = true
       | Exit _ => False
       end.
Proof.
  unfold exportItemToPDF. rewrite bind_unfold, console_run. cbv beta iota.
  rewrite bind_unfold. unfold perform at 1. cbn [emit world trace expandedItemsKeys].
  destruct (respond (HandleClick item) (world s)) as [[v|e] w1]; cbv beta iota.
  2:{ eexists _, _, [_; _]. split; [reflexivity|]. rewrite <- app_assoc.
      split; [reflexivity|]. split; [reflexivity|]. cbn. eauto. }
  rewrite bind_unfold.
  lazymatch goal with
  | |- context [exportItemToPDF_menu page index ?s1] =>
      destruct (exportItemToPDF_menu_cases page index s1)
        as (b & s2 & evs2 & Hmenu & Ht2 & Hm2 & _ & He2 & Hs2 & _)
  end.
  rewrite Hmenu. cbn [trace expandedItemsKeys] in Ht2, Hm2.
  rewrite <- !app_assoc in Ht2. cbn [app] in Ht2.
  destruct b.
  2:{ rewrite ret_run. eexists _, _, _. split; [reflexivity|]. split; [exact Ht2|].
      split; [exact Hm2|]. cbn. auto. }
  unfold exportItemToPDF_option. rewrite bind_unfold.
  destruct (findPDFOption_cases page s2)
    as (rf & s3 & evs3 & Hfind & Ht3 & Hm3 & Hall & Hne & Hexit3).
  rewrite Hfind. rewrite Ht2 in Ht3. rewrite Hm2 in Hm3.
  destruct (menu_read_lines evs3 Hall) as [He3 Hs3].
  destruct rf as [[exportButton|]|e|c]; [| | |destruct (Hexit3 c eq_refl)].
  - rewrite bind_unfold, console_run. cbv beta iota. rewrite bind_unfold.
    lazymatch goal with
    | |- context [promise_all2 _ _ ?s4] =>
        destruct (popup_await_cases context exportButton s4)
          as (rp & s5 & Hawait & Ht5 & Hm5 & Hexit5)
    end.
    rewrite Hawait. cbn [emit trace expandedItemsKeys] in Ht5, Hm5.
    rewrite Ht3 in Ht5. rewrite Hm3 in Hm5.
    destruct rp as [[popup vc]|e|c]; [| |destruct (Hexit5 c eq_refl)].
    + destruct (exportItemToPDF_print_cases popup index s5)
        as (o & s6 & evs6 & Hprint & Ht6 & Hm6 & Ho).
      rewrite Hprint. rewrite Ht5 in Ht6. rewrite Hm5 in Hm6.
      eexists _, _, _. split; [reflexivity|].
      split; [rewrite Ht6, <- !app_assoc; cbn [app]; reflexivity|].
      split; [exact Hm6|].
      cbn [exported_lines skipped_lines].
      rewrite !exported_lines_app, !skipped_lines_app, He2, Hs2, He3, Hs3. cbn.
      destruct o; tauto.
    + eexists _, _, _. split; [reflexivity|].
      split; [rewrite Ht5, <- !app_assoc; cbn [app]; reflexivity|].
      split; [exact Hm5|].
      cbn [exported_lines skipped_lines].
      rewrite !exported_lines_app, !skipped_lines_app, He2, Hs2, He3, Hs3. cbn.
      split; [reflexivity|]. split; [reflexivity|].
      exists (HandleClick exportButton). split; [|reflexivity].
      rewrite !last_cons, !last_app. reflexivity.
  - rewrite bind_unfold, console_run, ret_run. cbv beta iota.
    eexists _, _, _. split; [reflexivity|].
    split; [cbn [emit trace]; rewrite Ht3, <- !app_assoc; cbn [app]; reflexivity|].
    split; [exact Hm3|].
    cbn [exported_lines skipped_lines].
    rewrite !exported_lines_app, !skipped_lines_app, He2, Hs2, He3, Hs3. cbn. auto.
  - eexists _, _, _. split; [reflexivity|].
    split; [rewrite Ht3, <- !app_assoc; cbn [app]; reflexivity|].
    split; [exact Hm3|].
    cbn [exported_lines skipped_lines].
    rewrite !exported_lines_app, !skipped_lines_app, He2, Hs2, He3, Hs3. cbn.
    split; [reflexivity|]. split; [reflexivity|].
    destruct (last evs3) as [e3|] eqn:Hlast.
    + destruct (menu_read_last evs3 e3 Hall Hlast) as (c & -> & Hc).
      exists c. split; [|exact Hc].
      rewrite !last_cons, !last_app, Hlast. reflexivity.
    + apply last_None in Hlast. destruct (Hne Hlast).
Qed.

(** X5: an exception leaves [exportItemToPDF] only from a call that no [try]
    block guards.  Whenever the function throws, the call it made last is
    the click on the item, the query for the menu entries, the reading of
    an entry's text, or one of the two operations awaited together for the
    popup; and no outcome line was logged for the item. *)
Theorem exportItemToPDF_throws_only_unguarded context page item index s e s' :
  exportItemToPDF context page item index s = Some (Throw e, s') ->
  exists evs c,
    trace s' = trace s ++ evs
    /\ last evs = Some (Call c) /\ unguarded_call c = true
    /\ exported_lines evs = 0 /\ skipped_lines evs = 0.
Proof.
  intros Hrun.
  destruct (exportItemToPDF_cases context page item index s)
    as (r & s1 & evs & Hcases & Ht & _ & Hr).
  rewrite Hrun in Hcases. injection Hcases as <- <-.
  destruct Hr as (He & Hs & c & Hlast & Hc). exists evs, c. auto.
Qed.

End Stages.

(** ** The counters and the log *)

Section Counters.
Context {W : Type} `{!Driver W}.
Implicit Types (s : state (W := W)) (w : W).

Lemma run_loop_lines context page items todo i successCount skippedCount s :
  exists r s' evs,
    run_loop context page items todo i successCount skippedCount s = Some (r, s')
    /\ trace s' = trace s ++ evs
    /\ expandedItemsKeys s' = expandedItemsKeys s
    /\ forall successCount' skippedCount',
         r = Normal (successCount', skippedCount') ->
         successCount' = successCount + exported_lines evs
         /\ skippedCount' = skippedCount + skipped_lines evs.
Proof.
  revert i successCount skippedCount s.
  induction todo as [|todo IH]; intros i sc kc s.
  - exists (Normal (sc, kc)), s, []. rewrite app_nil_r.
    split; [reflexivity|]. split; [reflexivity|]. split; [reflexivity|].
    intros sc' kc' [= <- <-]. cbn. lia.
  - cbn [run_loop]. rewrite bind_unfold, console_run. cbv beta iota.
    rewrite bind_unfold.
    destruct (items !! i) as [item|].
    2:{ eexists _, _, [_]. split; [reflexivity|]. split; [reflexivity|].
        split; [reflexivity|]. intros ? ? [=]. }
    lazymatch goal with
    | |- context [exportItemToPDF context page item i ?s1] =>
        destruct (exportItemToPDF_cases context page item i s1)
          as (ro & s2 & evs2 & Hexport & Ht2 & Hm2 & Hro)
    end.
    rewrite Hexport. cbn [emit trace expandedItemsKeys] in Ht2, Hm2.
    destruct ro as [o|e|c]; [| |destruct Hro].
    2:{ eexists _, _, _. split; [reflexivity|].
        split; [rewrite Ht2, <- app_assoc; reflexivity|]. split; [exact Hm2|].
        intros ? ? [=]. }
    set (sc1 := match o with exported => S sc | skipped => sc end).
    set (kc1 := match o with exported => kc | skipped => S kc end).
    assert (Hcount : sc1 = sc + exported_lines evs2 /\ kc1 = kc + skipped_lines evs2).
    { subst sc1 kc1. destruct o; destruct Hro as [-> ->]; lia. }
    assert (Hgoal : exists r s' evs,
              bind (perform (WaitForTimeout page 1000))
                (fun _ => run_loop context page items todo (S i) sc1 kc1) s2 = Some (r, s')
              /\ trace s' = trace s ++ evs
              /\ expandedItemsKeys s' = expandedItemsKeys s
              /\ forall sc' kc',
                   r = Normal (sc', kc') ->
                   sc' = sc + exported_lines evs /\ kc' = kc + skipped_lines evs).
    { rewrite bind_unfold. unfold perform at 1.
      destruct (respond (WaitForTimeout page 1000) (world s2)) as [[v|e] w3];
        cbv beta iota.
      - lazymatch goal with
        | |- context [run_loop context page items todo (S i) sc1 kc1 ?s3] =>
            destruct (IH (S i) sc1 kc1 s3) as (r & s' & evs & Hrun & Ht & Hm & Hn)
        end.
        cbn [trace expandedItemsKeys] in Ht, Hm.
        exists r, s', (Console Log (MsgProcessing (i + 1) (length items))
                        :: evs2 ++ Call (WaitForTimeout page 1000) :: evs).
        split; [exact Hrun|].
        split; [rewrite Ht, Ht2, <- !app_assoc; reflexivity|].
        split; [rewrite Hm; exact Hm2|].
        intros sc' kc' Hr. destruct (Hn sc' kc' Hr) as [-> ->].
        cbn [exported_lines skipped_lines].
        rewrite exported_lines_app, skipped_lines_app. cbn [exported_lines skipped_lines].
        lia.
      - eexists _, _, _. split; [reflexivity|].
        split; [cbn [trace]; rewrite Ht2, <- !app_assoc; reflexivity|].
        split; [exact Hm2|]. intros ? ? [=]. }
    destruct o; exact Hgoal.
Qed.

(** X12: the summary agrees with the log.  The loop of [run] always finishes,
    and when it completes, the counter it reports as exported is the number
    of "Exported item" lines it logged, and the counter it reports as
    skipped is the number of "Skipping item" warnings and "Error exporting
    item" errors. *)
Theorem run_loop_counters_match_log context page items s :
  exists r s' evs,
    run_loop context page items (length items) 0 0 0 s = Some (r, s')
    /\ trace s' = trace s ++ evs
    /\ forall successCount skippedCount,
         r = Normal (successCount, skippedCount) ->
         successCount = exported_lines evs /\ skippedCount = skipped_lines evs.
Proof.
  destruct (run_loop_lines context page items (length items) 0 0 0 s)
    as (r & s' & evs & Hrun & Ht & _ & Hn).
  exists r, s', evs. split; [exact Hrun|]. split; [exact Ht|]. exact Hn.
Qed.

(** ** What only [expandTreeItems] and the [finally] block do *)

Lemma leaves_expansion_alone_refl s : leaves_expansion_alone s s.
Proof. split; [reflexivity | apply appends_refl]. Qed.

Lemma leaves_expansion_alone_trans s1 s2 s3 :
  leaves_expansion_alone s1 s2 -> leaves_expansion_alone s2 s3 ->
  leaves_expansion_alone s1 s3.
Proof.
  intros [Hm1 Ha1] [Hm2 Ha2]. split; [rewrite Hm2; exact Hm1|].
  eapply appends_trans; eassumption.
Qed.

Lemma leaves_expansion_alone_console l m :
  steps (W := W) leaves_expansion_alone (console l m).
Proof.
  intros s r s' [= <- <-]. split; [reflexivity|].
  exists [Console l m]. split; reflexivity.
Qed.

Lemma leaves_expansion_alone_perform c :
  not_icon_click (Call c) = true -> not_context_close (Call c) = true ->
  steps (W := W) leaves_expansion_alone (perform c).
Proof.
  intros H1 H2 s r s' Hrun. unfold perform in Hrun.
  destruct (respond c (world s)) as [[v|e] w']; injection Hrun as <- <-;
    (split; [reflexivity|]; exists [Call c]; split; [reflexivity|];
     cbn [forallb]; unfold not_expansion_or_close; rewrite H1, H2; reflexivity).
Qed.

Lemma leaves_expansion_alone_spec s s' :
  leaves_expansion_alone s s' ->
  expandedItemsKeys s' = expandedItemsKeys s
  /\ exists evs, trace s' = trace s ++ evs
                 /\ icon_clicks evs = [] /\ context_closes evs = 0.
Proof.
  intros [Hm (evs & Ht & Hall)]. split; [exact Hm|]. exists evs. split; [exact Ht|].
  clear Ht. induction evs as [|e evs IH]; [split; reflexivity|].
  cbn [forallb] in Hall. apply andb_true_iff in Hall as [He Hall].
  destruct (IH Hall) as [Hi Hc].
  destruct e as [l m|c]; [cbn; auto|].
  destruct c; cbn in *; auto; discriminate.
Qed.

(** X13: launching, opening the workspace, enumerating the items and the
    whole export loop leave the expansion alone: they never change
    [expandedItemsKeys], never click an expand affordance and never close
    the browser context.  Only [expandTreeItems] does the first two, and
    only the [finally] block of [run] the third. *)
Theorem export_phase_leaves_expansion_alone :
  let alone (s s' : state (W := W)) :=
    expandedItemsKeys s' = expandedItemsKeys s
    /\ exists evs, trace s' = trace s ++ evs
                   /\ icon_clicks evs = [] /\ context_closes evs = 0 in
  (forall s r s', launchChrome s = Some (r, s') -> alone s s')
  /\ (forall workspaceName page s r s',
        openWorkspace workspaceName page s = Some (r, s') -> alone s s')
  /\ (forall page s r s', getTreeItems page s = Some (r, s') -> alone s s')
  /\ (forall context page item index s r s',
        exportItemToPDF context page item index s = Some (r, s') -> alone s s')
  /\ (forall context page items todo i successCount skippedCount s r s',
        run_loop context page items todo i successCount skippedCount s = Some (r, s') ->
        alone s s').
Proof.
  cbv zeta. split; [|split; [|split; [|split]]].
  - intros s r s' Hrun. apply leaves_expansion_alone_spec.
    exact (steps_launchChrome leaves_expansion_alone leaves_expansion_alone_refl
             leaves_expansion_alone_trans leaves_expansion_alone_console
             leaves_expansion_alone_perform s r s' Hrun).
  - intros workspaceName page s r s' Hrun. apply leaves_expansion_alone_spec.
    exact (steps_openWorkspace leaves_expansion_alone leaves_expansion_alone_refl
             leaves_expansion_alone_trans leaves_expansion_alone_console
             leaves_expansion_alone_perform workspaceName page s r s' Hrun).
  - intros page s r s' Hrun. apply leaves_expansion_alone_spec.
    exact (steps_getTreeItems leaves_expansion_alone leaves_expansion_alone_refl
             leaves_expansion_alone_trans leaves_expansion_alone_console
             leaves_expansion_alone_perform page s r s' Hrun).
  - intros context page item index s r s' Hrun. apply leaves_expansion_alone_spec.
    exact (steps_exportItemToPDF leaves_expansion_alone leaves_expansion_alone_refl
             leaves_expansion_alone_trans leaves_expansion_alone_console
             leaves_expansion_alone_perform context page item index s r s' Hrun).
  - intros context page items todo i sc kc s r s' Hrun.
    apply leaves_expansion_alone_spec.
    exact (steps_run_loop leaves_expansion_alone leaves_expansion_alone_refl
             leaves_expansion_alone_trans leaves_expansion_alone_console
             leaves_expansion_alone_perform context page items todo i sc kc s r s' Hrun).
Qed.

End Counters.

(** ** The run controller *)

Section Controller.
Context {W : Type} `{!Driver W}.
Implicit Types (s : state (W := W)) (w : W).

(** X1: what [run] does once the browser is up is decided by its [try]
    block.  When the block completes, [context.close()] is called exactly
    once and [run] returns (or throws what closing throws).  When the block
    throws, [run] logs "Unexpected error" as its last line and ends the
    process with exit code 1, and [context.close()] is not called at all. *)
Theorem run_outcome_by_try_block fuel workspaceName s context s1 rb s2 :
  launchChrome s = Some (Normal context, s1) ->
  run_body fuel workspaceName context s1 = Some (rb, s2) ->
  exists r s' evs,
    run fuel workspaceName s = Some (r, s')
    /\ trace s' = trace s ++ evs
    /\ match rb with
       | Normal _ =>
           context_closes evs = 1 /\ (r = Normal tt \/ exists e, r = Throw e)
       | Throw e =>
           r = Exit 1 /\ context_closes evs = 0
           /\ last evs = Some (Console Err (MsgUnexpected e))
       | Exit c => r = Exit c /\ context_closes evs = 0
       end.
Proof.
  intros Hlaunch Hbody.
  rewrite (run_after_body _ _ _ _ _ _ _ Hlaunch Hbody).
  assert (Hl : emits (W := W) not_context_close launchChrome)
    by (unfold launchChrome; emits_tac).
  destruct (Hl _ _ _ Hlaunch) as (evs1 & Ht1 & Hq1).
  destruct (emits_run_body _ _ _ _ _ _ Hbody) as (evs2 & Ht2 & Hq2).
  apply context_closes_quiet in Hq1, Hq2.
  destruct rb as [[]|e|c].
  - rewrite bind_unfold. unfold perform.
    destruct (respond (ContextClose context) (world s2)) as [[v|e] w3];
      cbv beta iota; [rewrite console_run|].
    + exists (Normal tt), (emit (Console Log MsgContextClosed)
                             (State w3 (trace s2 ++ [Call (ContextClose context)])
                                (expandedItemsKeys s2))),
        (evs1 ++ evs2 ++ [Call (ContextClose context); Console Log MsgContextClosed]).
      split; [reflexivity|]. cbn [emit trace].
      rewrite Ht2, Ht1, !context_closes_app, Hq1, Hq2, <- !app_assoc.
      split; [reflexivity|]. split; [reflexivity | left; reflexivity].
    + exists (Throw e), (State w3 (trace s2 ++ [Call (ContextClose context)])
                           (expandedItemsKeys s2)),
        (evs1 ++ evs2 ++ [Call (ContextClose context)]).
      split; [reflexivity|]. cbn [trace].
      rewrite Ht2, Ht1, !context_closes_app, Hq1, Hq2, <- !app_assoc.
      split; [reflexivity|]. split; [reflexivity | right; eexists; reflexivity].
  - exists (Exit 1), (emit (Console Err (MsgUnexpected e)) s2),
      (evs1 ++ evs2 ++ [Console Err (MsgUnexpected e)]).
    split; [reflexivity|]. cbn [emit trace].
    rewrite Ht2, Ht1, !context_closes_app, Hq1, Hq2, <- !app_assoc.
    split; [reflexivity|]. split; [reflexivity|]. split; [reflexivity|].
    rewrite !app_assoc. apply last_snoc.
  - exists (Exit c), s2, (evs1 ++ evs2).
    split; [reflexivity|].
    rewrite Ht2, Ht1, !context_closes_app, Hq1, Hq2, <- !app_assoc.
    split; [reflexivity|]. split; reflexivity.
Qed.

(** X2: a browser that fails to launch is not handled by [run] at all.  The
    launch sits before the [try] block, so its rejection leaves [run] as an
    exception after that single call: nothing is logged as "Unexpected
    error", no exit code is set by the script, nothing is closed, and the
    script does not reach "Script finished". *)
Theorem launch_rejection_leaves_run fuel c workspaceName s e w' :
  respond LaunchPersistentContext (world s) = (Rejected e, w') ->
  let s' := State w' (trace s ++ [Console Log MsgLaunching; Call LaunchPersistentContext])
              (expandedItemsKeys s) in
  run fuel (c :: workspaceName) s = Some (Throw e, s')
  /\ script fuel true (Some (c :: workspaceName)) s = Some (Throw e, s').
Proof.
  intros Hlaunch s'.
  assert (Hrun : run fuel (c :: workspaceName) s = Some (Throw e, s')).
  { unfold run, launchChrome. mrun. unfold s'. rewrite <- app_assoc. reflexivity. }
  split; [exact Hrun|]. unfold script. cbn [negb]. rewrite bind_unfold, Hrun.
  reflexivity.
Qed.

(** X14: [openWorkspace] makes at most four calls, in a fixed order:
    navigation, the wait for the workspace selector, the query, and one
    click.  The click is on the handle the query returned and on no other:
    whenever the query resolves to a handle, that handle is clicked, and
    the function returns after "Workspace opened" exactly when this click
    resolves.  Without a click the function throws after at most the first
    three calls; when the query returns [null] it throws "Workspace not
    found" for this name. *)
Theorem openWorkspace_calls workspaceName page s :
  let selector := workspace_selector workspaceName in
  (exists r s' evs,
     openWorkspace workspaceName page s = Some (r, s')
     /\ trace s' = trace s ++ evs
     /\ (forall c, r <> Exit c)
     /\ (forall h, HandleClick h ∈ calls evs ->
         exists v1 w1 v2 w2 w3,
           respond (Goto page LOOP_URL) (world s) = (Resolved v1, w1)
           /\ respond (WaitForSelector page selector None) w1 = (Resolved v2, w2)
           /\ respond (Query page selector) w2 = (Resolved (VHandle (Some h)), w3)
           /\ calls evs = [Goto page LOOP_URL; WaitForSelector page selector None;
                           Query page selector; HandleClick h])
     /\ ((forall h, HandleClick h ∉ calls evs) ->
         calls evs `prefix_of`
           [Goto page LOOP_URL; WaitForSelector page selector None; Query page selector]
         /\ exists e, r = Throw e)
     /\ (r = Normal tt ->
         (exists h, HandleClick h ∈ calls evs)
         /\ last evs = Some (Console Log MsgWorkspaceOpened)))
  /\ (forall v1 w1 v2 w2 button w3,
        respond (Goto page LOOP_URL) (world s) = (Resolved v1, w1) ->
        respond (WaitForSelector page selector None) w1 = (Resolved v2, w2) ->
        respond (Query page selector) w2 = (Resolved (VHandle (Some button)), w3) ->
        exists r s',
          openWorkspace workspaceName page s = Some (r, s')
          /\ calls (drop (length (trace s)) (trace s'))
             = [Goto page LOOP_URL; WaitForSelector page selector None;
                Query page selector; HandleClick button]
          /\ match respond (HandleClick button) w3 with
             | (Resolved _, w4) => r = Normal tt /\ world s' = w4
             | (Rejected e, w4) => r = Throw e /\ world s' = w4
             end)
  /\ (forall v1 w1 v2 w2 w3,
        respond (Goto page LOOP_URL) (world s) = (Resolved v1, w1) ->
        respond (WaitForSelector page selector None) w1 = (Resolved v2, w2) ->
        respond (Query page selector) w2 = (Resolved (VHandle None), w3) ->
        exists s',
          openWorkspace workspaceName page s
            = Some (Throw (WorkspaceNotFound workspaceName), s')
          /\ calls (drop (length (trace s)) (trace s'))
             = [Goto page LOOP_URL; WaitForSelector page selector None;
                Query page selector]).
Proof.
  cbv zeta.
  pose (no_click := fun evs : list event => forall h, HandleClick h ∉ calls evs).
  assert (Hthrows : forall e s' evs,
            openWorkspace workspaceName page s = Some (Throw e, s') ->
            trace s' = trace s ++ evs ->
            no_click evs ->
            calls evs `prefix_of`
              [Goto page LOOP_URL;
               WaitForSelector page (workspace_selector workspaceName) None;
               Query page (workspace_selector workspaceName)] ->
            exists r s' evs,
              openWorkspace workspaceName page s = Some (r, s')
              /\ trace s' = trace s ++ evs
              /\ (forall c, r <> Exit c)
              /\ (forall h, HandleClick h ∈ calls evs ->
                  exists v1 w1 v2 w2 w3,
                    respond (Goto page LOOP_URL) (world s) = (Resolved v1, w1)
                    /\ respond (WaitForSelector page (workspace_selector workspaceName)
                                  None) w1 = (Resolved v2, w2)
                    /\ respond (Query page (workspace_selector workspaceName)) w2
                       = (Resolved (VHandle (Some h)), w3)
                    /\ calls evs
                       = [Goto page LOOP_URL;
                          WaitForSelector page (workspace_selector workspaceName) None;
                          Query page (workspace_selector workspaceName); HandleClick h])
              /\ ((forall h, HandleClick h ∉ calls evs) ->
                  calls evs `prefix_of`
                    [Goto page LOOP_URL;
                     WaitForSelector page (workspace_selector workspaceName) None;
                     Query page (workspace_selector workspaceName)]
                  /\ exists e, r = Throw e)
              /\ (r = Normal tt ->
                  (exists h, HandleClick h ∈ calls evs)
                  /\ last evs = Some (Console Log MsgWorkspaceOpened))).
  { intros e s' evs Hrun Ht Hno Hpre. exists (Throw e), s', evs.
    split; [exact Hrun|]. split; [exact Ht|]. split; [intros c; discriminate|].
    split; [intros h Hin; destruct (Hno h Hin)|].
    split; [intros _; split; [exact Hpre | eexists; reflexivity]|]. discriminate. }
  assert (Hquiet : forall cs : list call,
            (forall h, HandleClick h ∉ cs) ->
            forall c, (forall h, c <> HandleClick h) -> forall h, HandleClick h ∉ c :: cs).
  { intros cs Hcs c Hc h Hin. apply elem_of_cons in Hin as [Heq | Hin].
    - exact (Hc h (eq_sym Heq)).
    - exact (Hcs h Hin). }
  assert (Hnil : forall h, HandleClick h ∉ ([] : list call)).
  { intros h Hin. apply elem_of_nil in Hin. exact Hin. }
  split; [|split].
  - unfold openWorkspace. cbv zeta.
    destruct (respond (Goto page LOOP_URL) (world s)) as [[v1|e1] w1] eqn:H1.
    2:{ eapply Hthrows.
        - unfold openWorkspace. cbv zeta. mrun. reflexivity.
        - cbn [trace]. rewrite <- ?app_assoc. reflexivity.
        - intros h. cbn. apply Hquiet; [exact Hnil | discriminate].
        - cbn. eexists. reflexivity. }
    destruct (respond (WaitForSelector page (workspace_selector workspaceName) None) w1)
      as [[v2|e2] w2] eqn:H2.
    2:{ eapply Hthrows.
        - unfold openWorkspace. cbv zeta. mrun. reflexivity.
        - cbn [trace]. rewrite <- ?app_assoc. reflexivity.
        - intros h. cbn. repeat (apply Hquiet; [|discriminate]). exact Hnil.
        - cbn. eexists. reflexivity. }
    destruct (respond (Query page (workspace_selector workspaceName)) w2)
      as [[v3|e3] w3] eqn:H3.
    2:{ eapply Hthrows.
        - unfold openWorkspace. cbv zeta. mrun. reflexivity.
        - cbn [trace]. rewrite <- ?app_assoc. reflexivity.
        - intros h. cbn. repeat (apply Hquiet; [|discriminate]). exact Hnil.
        - cbn. reflexivity. }
    destruct v3 as [| | |[button|]| | |];
      try (eapply Hthrows;
           [ unfold openWorkspace; cbv zeta; mrun; cbn [as_handle]; unfold throw;
             try (rewrite ret_run; cbv beta iota); reflexivity
           | cbn [trace]; rewrite <- ?app_assoc; reflexivity
           | intros h; cbn; repeat (apply Hquiet; [|discriminate]); exact Hnil
           | cbn; reflexivity ]).
    mrun. cbn [as_handle]. rewrite ret_run. cbv beta iota.
    destruct (respond (HandleClick button) w3) as [[v4|e4] w4] eqn:H4;
      mrun; rewrite <- ?app_assoc; eexists _, _, _;
      (split; [reflexivity|]); (split; [reflexivity|]); cbn [calls app];
      (split; [intros ?; discriminate|]).
    + split.
      { intros h Hin. cbn in Hin.
        do 3 (apply elem_of_cons in Hin as [Hin | Hin]; [discriminate Hin|]).
        apply list_elem_of_singleton in Hin. injection Hin as ->.
        exists v1, w1, v2, w2, w3. cbn. auto. }
      split.
      { intros Hno. exfalso. apply (Hno button). cbn. set_solver. }
      intros _. split; [exists button; cbn; set_solver | reflexivity].
    + split.
      { intros h Hin. cbn in Hin.
        do 3 (apply elem_of_cons in Hin as [Hin | Hin]; [discriminate Hin|]).
        apply list_elem_of_singleton in Hin. injection Hin as ->.
        exists v1, w1, v2, w2, w3. cbn. auto. }
      split.
      { intros Hno. exfalso. apply (Hno button). cbn. set_solver. }
      discriminate.
  - intros v1 w1 v2 w2 button w3 H1 H2 H3. unfold openWorkspace. cbv zeta. mrun.
    cbn [as_handle]. rewrite ret_run. cbv beta iota.
    destruct (respond (HandleClick button) w3) as [[v4|e4] w4] eqn:H4;
      mrun; eexists _, _; (split; [reflexivity|]); cbn [trace world];
      rewrite <- !app_assoc, drop_app_length; split; [reflexivity | split; reflexivity
                                                     | reflexivity | split; reflexivity].
  - intros v1 w1 v2 w2 w3 H1 H2 H3. unfold openWorkspace. cbv zeta. mrun.
    cbn [as_handle]. mrun. unfold throw. eexists. split; [reflexivity|].
    cbn [trace]. rewrite <- !app_assoc, drop_app_length. reflexivity.
Qed.

(** The launch opens every trace of [run]. *)
Lemma launchChrome_starts s r s1 :
  launchChrome s = Some (r, s1) ->
  exists rest,
    trace s1 = trace s ++ Console Log MsgLaunching :: Call LaunchPersistentContext :: rest.
Proof.
  unfold launchChrome.
  destruct (respond LaunchPersistentContext (world s)) as [[v|e] w1] eqn:Hl; mrun.
  - destruct v; cbn [as_context]; mrun; intros [= <- <-]; cbn [trace];
      rewrite <- ?app_assoc; eexists; reflexivity.
  - intros [= <- <-]. cbn [trace]. rewrite <- ?app_assoc. eexists. reflexivity.
Qed.

Lemma appends_any p s s' : appends p s s' -> exists evs, trace s' = trace s ++ evs.
Proof. intros (evs & Ht & _). exists evs. exact Ht. Qed.

Lemma run_starts_with_launch fuel workspaceName s r s' :
  run fuel workspaceName s = Some (r, s') ->
  exists rest,
    trace s' = trace s ++ Console Log MsgLaunching :: Call LaunchPersistentContext :: rest.
Proof.
  unfold run. rewrite bind_unfold.
  destruct (launchChrome s) as [[[context|e|c] s1]|] eqn:Hlaunch; [| | |discriminate];
    apply launchChrome_starts in Hlaunch as (rest & Ht1).
  - intros Htail.
    assert (Hframe : appends (fun _ => true) s1 s').
    { revert Htail. apply emits_try_finally; [apply emits_try_catch|].
      - intros s0 r0 s0' Hbody.
        destruct (appends_any _ _ _ (emits_run_body fuel workspaceName context _ _ _ Hbody))
          as (evs & Ht). exists evs. split; [exact Ht|].
        apply forallb_forall. reflexivity.
      - intros err. emits_tac.
      - emits_tac. }
    destruct Hframe as (evs & Ht & _). rewrite Ht, Ht1, <- app_assoc. cbn [app].
    eexists. reflexivity.
  - intros [= <- <-]. exists rest. exact Ht1.
  - intros [= <- <-]. exists rest. exact Ht1.
Qed.

(** Break a fragment without loops into its parts, each of which
    completes. *)
Ltac completes_parts :=
  repeat first
    [ apply completes_ret | apply completes_throw | apply completes_console
    | apply completes_perform
    | apply completes_await; intros [];
        first [apply completes_ret | apply completes_throw]
    | apply completes_bind; [|intros ?]
    | apply completes_try_catch; [|intros ?]
    | apply completes_promise_all2 ].

Section Finishing.
(** An invariant [Inv] of the browser world under every call, with the
    labels the world shows drawn from the finite set [U]. *)
Variable Inv : W -> Prop.
Variable U : gset jsstring.
Hypothesis Inv_respond : forall c w, Inv w -> Inv (respond c w).2.
Hypothesis Inv_label : forall icon w parent w',
  Inv w -> respond (ParentTextContent icon) w = (Resolved (VParentText parent), w') ->
  parent_label parent ∈ U.

Lemma keeps_invariant_refl s : keeps_invariant Inv s s.
Proof. split; [exact (fun H => H) | reflexivity]. Qed.

Lemma keeps_invariant_trans s1 s2 s3 :
  keeps_invariant Inv s1 s2 -> keeps_invariant Inv s2 s3 -> keeps_invariant Inv s1 s3.
Proof. intros [H1 M1] [H2 M2]. split; [auto | rewrite M2; exact M1]. Qed.

Lemma keeps_invariant_console l m : steps (W := W) (keeps_invariant Inv) (console l m).
Proof. intros s r s' [= <- <-]. split; [exact (fun H => H) | reflexivity]. Qed.

Lemma keeps_invariant_perform c : steps (W := W) (keeps_invariant Inv) (perform c).
Proof.
  intros s r s' Hrun. unfold perform in Hrun.
  pose proof (Inv_respond c (world s)) as HI.
  destruct (respond c (world s)) as [[v|e] w']; injection Hrun as <- <-;
    (split; [exact HI | reflexivity]).
Qed.

(** With enough passes for the labels of [U], the [try] block of [run]
    always comes to an end. *)
Lemma run_body_finishes fuel workspaceName context s :
  Inv (world s) ->
  size (U ∖ expandedItemsKeys s) < fuel ->
  exists r s', run_body fuel workspaceName context s = Some (r, s').
Proof.
  intros HI Hfuel. unfold run_body. rewrite bind_unfold.
  assert (Hpage : completes (W := W) (await (NewPage context) as_page))
    by completes_parts.
  destruct (Hpage s) as (r1 & s1 & H1 & _). rewrite H1.
  assert (K1 : keeps_invariant Inv s s1).
  { revert H1. apply (steps_bind _ keeps_invariant_trans);
      [apply keeps_invariant_perform | intros v; apply steps_as_page, keeps_invariant_refl]. }
  destruct r1 as [page|e|c]; [|eauto..].
  rewrite bind_unfold, console_run. cbv beta iota. rewrite bind_unfold.
  assert (Hopen : completes (W := W) (openWorkspace workspaceName page)).
  { unfold openWorkspace. cbv zeta.
    do 4 (apply completes_bind; [completes_parts | intros _]).
    apply completes_bind; [completes_parts | intros [button|]]; completes_parts. }
  destruct (Hopen (emit (Console Log MsgNewPage) s1)) as (r2 & s2 & H2 & _). rewrite H2.
  assert (K2 : keeps_invariant Inv (emit (Console Log MsgNewPage) s1) s2).
  { exact (steps_openWorkspace (keeps_invariant Inv) keeps_invariant_refl
             keeps_invariant_trans keeps_invariant_console
             (fun c _ _ => keeps_invariant_perform c) workspaceName page _ _ _ H2). }
  destruct r2 as [[]|e|c]; [|eauto..].
  destruct K1 as [KI1 KM1]. destruct K2 as [KI2 KM2]. cbn [emit world expandedItemsKeys] in *.
  rewrite bind_unfold.
  destruct (expandTreeItems_enough_fuel Inv U Inv_respond Inv_label page fuel s2)
    as (r3 & s3 & H3 & _); [auto | rewrite KM2, KM1; exact Hfuel |].
  rewrite H3. destruct r3 as [[]|e|c]; [|eauto..].
  assert (Hrest : completes (W := W)
            (bind (getTreeItems page) (fun items =>
             bind (run_loop context page items (length items) 0 0 0)
               (fun '(successCount, skippedCount) =>
                bind (console Log MsgAllProcessed) (fun _ =>
                bind (console Log (MsgSuccessCount successCount)) (fun _ =>
                console Log (MsgSkippedCount skippedCount))))))).
  { apply completes_bind; [unfold getTreeItems; completes_parts | intros items].
    apply completes_bind; [apply completes_run_loop | intros [sc kc]]. completes_parts. }
  destruct (Hrest s3) as (r4 & s4 & H4 & _). exists r4, s4. exact H4.
Qed.

Lemma script_finishes fuel c workspaceName s :
  Inv (world s) ->
  size (U ∖ expandedItemsKeys s) < fuel ->
  exists r s', script fuel true (Some (c :: workspaceName)) s = Some (r, s').
Proof.
  intros HI Hfuel. unfold script. cbn [negb]. rewrite bind_unfold. unfold run.
  rewrite bind_unfold.
  assert (Hlaunch : completes (W := W) launchChrome)
    by (unfold launchChrome; completes_parts).
  destruct (Hlaunch s) as (r1 & s1 & H1 & _). rewrite H1.
  destruct (steps_launchChrome (keeps_invariant Inv) keeps_invariant_refl
              keeps_invariant_trans keeps_invariant_console
              (fun c _ _ => keeps_invariant_perform c) _ _ _ H1) as [KI KM].
  destruct r1 as [context|e|x]; [|eauto..].
  unfold try_finally. rewrite try_catch_unfold.
  destruct (run_body_finishes fuel (c :: workspaceName) context s1)
    as (rb & s2 & Hbody); [auto | rewrite KM; exact Hfuel |].
  rewrite Hbody. destruct rb as [[]|e|x].
  - rewrite bind_unfold. unfold perform.
    destruct (respond (ContextClose context) (world s2)) as [[v|e] w3];
      cbv beta iota; rewrite ?console_run; cbv beta iota; rewrite ?console_run; eauto.
  - rewrite bind_unfold, console_run. cbv beta iota. unfold process_exit. eauto.
  - eauto.
Qed.

End Finishing.

(** X15: the two start-up checks guard the browser.  Without Chrome the
    script logs "Chrome not found" and ends the process with exit code 1,
    whatever the arguments; with Chrome but a missing or empty workspace
    name it logs the usage line and ends with exit code 1.  In both cases
    that line is all it does: no call is made.  When both checks pass, the
    first thing the script does is log the launch and launch the browser;
    and on a browser that shows finitely many labels the script, given
    passes enough for them, always comes to an end. *)
Theorem startup_checks_guard_the_launch fuel s :
  (forall argv2,
     script fuel false argv2 s = Some (Exit 1, emit (Console Err MsgChromeNotFound) s))
  /\ script fuel true None s = Some (Exit 1, emit (Console Err MsgUsage) s)
  /\ script fuel true (Some []) s = Some (Exit 1, emit (Console Err MsgUsage) s)
  /\ (forall c workspaceName r s',
        script fuel true (Some (c :: workspaceName)) s = Some (r, s') ->
        exists rest,
          trace s' = trace s ++ Console Log MsgLaunching
                       :: Call LaunchPersistentContext :: rest)
  /\ (forall (Inv : W -> Prop) (U : gset jsstring) c workspaceName,
        (forall c w, Inv w -> Inv (respond c w).2) ->
        (forall icon w parent w',
           Inv w ->
           respond (ParentTextContent icon) w = (Resolved (VParentText parent), w') ->
           parent_label parent ∈ U) ->
        Inv (world s) ->
        size (U ∖ expandedItemsKeys s) < fuel ->
        exists r s' rest,
          script fuel true (Some (c :: workspaceName)) s = Some (r, s')
          /\ trace s' = trace s ++ Console Log MsgLaunching
                          :: Call LaunchPersistentContext :: rest).
Proof.
  assert (Hstart : forall c workspaceName r s',
            script fuel true (Some (c :: workspaceName)) s = Some (r, s') ->
            exists rest,
              trace s' = trace s ++ Console Log MsgLaunching
                           :: Call LaunchPersistentContext :: rest).
  { intros c workspaceName r s'. unfold script. cbn [negb]. rewrite bind_unfold.
    destruct (run fuel (c :: workspaceName) s) as [[[[]|e|x] s1]|] eqn:Hrun;
      [| | |discriminate];
      apply run_starts_with_launch in Hrun as (rest & Ht1).
    - rewrite console_run. intros [= <- <-]. cbn [emit trace].
      rewrite Ht1, <- app_assoc. cbn [app]. eexists. reflexivity.
    - intros [= <- <-]. exists rest. exact Ht1.
    - intros [= <- <-]. exists rest. exact Ht1. }
  split; [intros argv2; reflexivity|]. split; [reflexivity|]. split; [reflexivity|].
  split; [exact Hstart|].
  intros Inv U c workspaceName Hrespond Hlabel HI Hfuel.
  destruct (script_finishes Inv U Hrespond Hlabel fuel c workspaceName s HI Hfuel)
    as (r & s' & Hrun).
  destruct (Hstart c workspaceName r s' Hrun) as (rest & Ht).
  exists r, s', rest. split; assumption.
Qed.

End Controller.

(** ** More on the tree expansion *)

Section ExpansionExtras.
Context {W : Type} `{!Driver W}.
Implicit Types (s : state (W := W)) (w : W).

(** X11: a failure of the settle pause is handled like a failed click.  When
    the click on an expand affordance succeeds but [page.waitForTimeout(500)]
    after it is rejected, the rejection is caught and logged as an error
    expanding that label, the label enters [expandedItemsKeys] and stays
    there, and the loop goes on with the remaining affordances with the flag
    set.  The loop comes to an end: it returns [true], or it throws because
    the label of a later affordance could not be read; the failed pause
    itself never leaves the loop. *)
Theorem expand_settle_failure_contained page icon rest expanded s parent v e w1 w2 w3 :
  respond (ParentTextContent icon) (world s) = (Resolved (VParentText parent), w1) ->
  parent_label parent ∉ expandedItemsKeys s ->
  respond (IconClick icon (parent_label parent)) w1 = (Resolved v, w2) ->
  respond (WaitForTimeout page 500) w2 = (Rejected e, w3) ->
  let label := parent_label parent in
  let s1 := State w3
              (trace s ++ [Call (ParentTextContent icon);
                           Console Log (MsgExpanding label);
                           Call (IconClick icon label);
                           Call (WaitForTimeout page 500);
                           Console Err (MsgErrorExpanding label e)])
              ({[label]} ∪ expandedItemsKeys s) in
  exists r s' evs,
    expandTreeItems_loop page (icon :: rest) expanded s = Some (r, s')
    /\ expandTreeItems_loop page rest true s1 = Some (r, s')
    /\ trace s' = trace s1 ++ evs
    /\ label ∈ expandedItemsKeys s'
    /\ (r = Normal true
        \/ exists e' icon',
             r = Throw e' /\ icon' ∈ rest
             /\ last evs = Some (Call (ParentTextContent icon')))
    /\ (rest = [] -> r = Normal true /\ s' = s1).
Proof.
  intros Hlabel Hfresh Hclick Hsettle label s1.
  destruct (expandTreeItems_loop_finishes page rest true s1)
    as (r & s' & evs & Hrun & Ht & Hsub & Hexit & Hflag & Hthrow).
  exists r, s', evs. split; [|split; [exact Hrun|]].
  - rewrite <- Hrun. cbn [expandTreeItems_loop]. mrun. cbn [as_parent_text]. mrun.
    rewrite bool_decide_eq_false_2 by exact Hfresh. mrun.
    unfold s1, label. rewrite <- !app_assoc. reflexivity.
  - split; [exact Ht|]. split; [apply Hsub; unfold s1; cbn; set_solver|]. split.
    + destruct r as [b|e'|c].
      * left. rewrite (Hflag b eq_refl eq_refl). reflexivity.
      * right. destruct (Hthrow e' eq_refl) as (icon' & Hin & Hlast).
        exists e', icon'. split; [reflexivity|]. split; assumption.
      * destruct (Hexit c eq_refl).
    + intros ->. cbn [expandTreeItems_loop] in Hrun. rewrite ret_run in Hrun.
      injection Hrun as <- <-. split; reflexivity.
Qed.

Section Invariant.
Variable Inv : W -> Prop.
Variable L : jsstring -> Prop.
Hypothesis Inv_respond : forall c w, Inv w -> Inv (respond c w).2.
Hypothesis Inv_label : forall icon w parent w',
  Inv w -> respond (ParentTextContent icon) w = (Resolved (VParentText parent), w') ->
  L (parent_label parent).

(** A whole call, pass after pass. *)
Lemma expandTreeItems_expansion_step_inv fuel page s r s' :
  Inv (world s) ->
  expandTreeItems fuel page s = Some (r, s') ->
  exists evs, expansion_step Inv L s s' evs.
Proof.
  revert s r s'. induction fuel as [|fuel IH]; intros s r s' HI Hrun; [discriminate|].
  cbn [expandTreeItems] in Hrun. rewrite bind_unfold in Hrun.
  destruct (expandTreeItems_pass_spec Inv L Inv_respond Inv_label page s HI)
    as (r1 & s1 & evs1 & Hpass & Hstep & Hexit & _).
  rewrite Hpass in Hrun. destruct r1 as [[|]|e|c].
  - rewrite bind_unfold, console_run in Hrun. cbv beta iota in Hrun.
    apply IH in Hrun as (evs & Hstep'); [|apply Hstep].
    exists (evs1 ++ [Console Log MsgExpandingNested] ++ evs).
    eapply expansion_step_trans; [exact Hstep|].
    eapply expansion_step_trans; [|exact Hstep'].
    apply (expansion_step_quiet Inv L s1 (world s1) [Console Log MsgExpandingNested]);
      [apply Hstep | reflexivity].
  - rewrite console_run in Hrun. injection Hrun as <- <-.
    exists (evs1 ++ [Console Log MsgAllExpanded]).
    eapply expansion_step_trans; [exact Hstep|].
    apply (expansion_step_quiet Inv L s1 (world s1) [Console Log MsgAllExpanded]);
      [apply Hstep | reflexivity].
  - injection Hrun as <- <-. exists evs1. exact Hstep.
  - destruct (Hexit c eq_refl).
Qed.

End Invariant.

(** X9: expansion is idempotent.  When every label the page can show is
    already in [expandedItemsKeys], a call makes a single pass, clicks
    nothing, leaves the memo set as it is and, unless a call is rejected,
    returns after "All tree items expanded". *)
Theorem expandTreeItems_nothing_new (Inv : W -> Prop) page s fuel :
  (forall c w, Inv w -> Inv (respond c w).2) ->
  (forall icon w parent w',
     Inv w -> respond (ParentTextContent icon) w = (Resolved (VParentText parent), w') ->
     parent_label parent ∈ expandedItemsKeys s) ->
  Inv (world s) ->
  exists r s' evs,
    expandTreeItems (S fuel) page s = Some (r, s')
    /\ trace s' = trace s ++ evs
    /\ icon_clicks evs = []
    /\ expandedItemsKeys s' = expandedItemsKeys s
    /\ (r = Normal tt /\ last evs = Some (Console Log MsgAllExpanded)
        \/ exists e, r = Throw e).
Proof.
  intros Hresp Hlabel HI.
  destruct (expandTreeItems_pass_spec Inv (fun l => l ∈ expandedItemsKeys s)
              Hresp Hlabel page s HI)
    as (r1 & s1 & evs1 & Hpass & [Ht _ Hfresh Hmemo Hlabels _] & Hexit & Hflag).
  assert (Hclicks : icon_clicks evs1 = []).
  { destruct (icon_clicks evs1) as [|l clicks]; [reflexivity|]. exfalso.
    apply Forall_cons in Hlabels as [Hl _]. apply (Hfresh l); [left | exact Hl]. }
  rewrite Hclicks in Hmemo. cbn in Hmemo. rewrite union_empty_r_L in Hmemo.
  cbn [expandTreeItems]. rewrite bind_unfold, Hpass.
  destruct r1 as [b|e|c]; [| |destruct (Hexit c eq_refl)].
  - rewrite (Hflag b eq_refl), Hclicks. cbn. rewrite console_run.
    exists (Normal tt), (emit (Console Log MsgAllExpanded) s1),
      (evs1 ++ [Console Log MsgAllExpanded]).
    split; [reflexivity|]. cbn [emit trace expandedItemsKeys].
    split; [rewrite Ht, <- app_assoc; reflexivity|].
    split; [rewrite icon_clicks_app, Hclicks; reflexivity|].
    split; [exact Hmemo|]. left. split; [reflexivity | apply last_snoc].
  - exists (Throw e), s1, evs1. split; [reflexivity|]. split; [exact Ht|].
    split; [exact Hclicks|]. split; [exact Hmemo|]. right. eexists. reflexivity.
Qed.

(** X10: [expandedItemsKeys] only grows, and only by labels the page showed.
    With the labels of the page drawn from a finite set [U], a finished call
    leaves a memo set between the old one and the old one joined with [U],
    and it clicks at most as many affordances as there are labels of [U]
    outside the old memo set. *)
Theorem expandTreeItems_memo_bounds (Inv : W -> Prop) (U : gset jsstring)
    fuel page s r s' :
  (forall c w, Inv w -> Inv (respond c w).2) ->
  (forall icon w parent w',
     Inv w -> respond (ParentTextContent icon) w = (Resolved (VParentText parent), w') ->
     parent_label parent ∈ U) ->
  Inv (world s) ->
  expandTreeItems fuel page s = Some (r, s') ->
  expandedItemsKeys s ⊆ expandedItemsKeys s'
  /\ expandedItemsKeys s' ⊆ expandedItemsKeys s ∪ U
  /\ length (icon_clicks (drop (length (trace s)) (trace s')))
     <= size (U ∖ expandedItemsKeys s).
Proof.
  intros Hresp Hlabel HI Hrun.
  destruct (expandTreeItems_expansion_step_inv Inv (fun l => l ∈ U) Hresp Hlabel
              fuel page s r s' HI Hrun)
    as (evs & [Ht Hnodup Hfresh Hmemo Hlabels _]).
  rewrite Ht, drop_app_length, Hmemo.
  assert (Hsub : (list_to_set (icon_clicks evs) : gset jsstring) ⊆ U ∖ expandedItemsKeys s).
  { intros l Hl. apply elem_of_list_to_set in Hl. apply elem_of_difference.
    split; [|apply Hfresh, Hl].
    exact (proj1 (Forall_forall _ _) Hlabels l Hl). }
  split; [set_solver|]. split; [set_solver|].
  rewrite <- (size_list_to_set (C := gset jsstring)) by exact Hnodup.
  apply subseteq_size, Hsub.
Qed.

End ExpansionExtras.

(** * The properties at concrete inputs *)

Lemma expand_click_failure_contained_witness :
  exists r s' evs,
    expandTreeItems_loop 1 [20; 21] false
      (start [resolved_label " A "; Rejected (DriverError 7); resolved_label "B"; ok; ok])
      = Some (r, s')
    /\ expandTreeItems_loop 1 [21] true
         (State [resolved_label "B"; ok; ok]
            ([] ++ [Call (ParentTextContent 20);
                    Console Log (MsgExpanding (js "A"));
                    Call (IconClick 20 (js "A"));
                    Console Err (MsgErrorExpanding (js "A") (DriverError 7))])
            ({[js "A"]} ∪ ∅))
       = Some (r, s')
    /\ trace s' = ([] ++ [Call (ParentTextContent 20);
                          Console Log (MsgExpanding (js "A"));
                          Call (IconClick 20 (js "A"));
                          Console Err (MsgErrorExpanding (js "A") (DriverError 7))])
                  ++ evs
    /\ js "A" ∈ expandedItemsKeys s'
    /\ (r = Normal true
        \/ exists e' icon',
             r = Throw e' /\ icon' ∈ [21]
             /\ last evs = Some (Call (ParentTextContent icon')))
    /\ ([21] = [] -> r = Normal true
        /\ s' = State [resolved_label "B"; ok; ok]
                  ([] ++ [Call (ParentTextContent 20);
                          Console Log (MsgExpanding (js "A"));
                          Call (IconClick 20 (js "A"));
                          Console Err (MsgErrorExpanding (js "A") (DriverError 7))])
                  ({[js "A"]} ∪ ∅)).
Proof.
  apply (expand_click_failure_contained (W := tape) 1 20 [21] false
           (start [resolved_label " A "; Rejected (DriverError 7);
                   resolved_label "B"; ok; ok])
           (Some (Some (js " A "))) (DriverError 7)
           [Rejected (DriverError 7); resolved_label "B"; ok; ok]
           [resolved_label "B"; ok; ok]).
  - reflexivity.
  - cbn. apply not_elem_of_empty.
  - reflexivity.
Defined.


(** ** Finite navigation trees *)

Lemma nav_labels_in_respond (U : gset jsstring) c (t : nav_tree) :
  nav_labels_in U t -> nav_labels_in U (respond c t).2.
Proof.
  intros Ht. destruct c; cbn; try exact Ht.
  - destruct (_ && _); exact Ht.
  - case_bool_decide; exact Ht.
  - apply Forall_alter; [exact Ht|]. intros n _ Hn. exact Hn.
  - destruct (t !! h); exact Ht.
Qed.

Lemma nav_labels_in_label (U : gset jsstring) icon (t : nav_tree) parent t' :
  nav_labels_in U t ->
  respond (ParentTextContent icon) t = (Resolved (VParentText parent), t') ->
  parent_label parent ∈ U.
Proof.
  intros Ht Hr. cbn in Hr. destruct (t !! icon) as [n|] eqn:Hn; [|discriminate].
  injection Hr as <- _.
  exact (proj1 (Forall_lookup _ t) Ht icon n Hn).
Qed.

Lemma nav_labels_in_own (t : nav_tree) : nav_labels_in (nav_labels t) t.
Proof.
  apply Forall_forall. intros n Hn. unfold nav_labels.
  apply elem_of_list_to_set, list_elem_of_fmap. exists n. split; [reflexivity | exact Hn].
Qed.

Lemma size_list_to_set_le (l : list jsstring) :
  size (list_to_set l : gset jsstring) <= length l.
Proof.
  induction l as [|x l IH]; cbn [length].
  - rewrite list_to_set_nil, size_empty. lia.
  - rewrite list_to_set_cons, size_union_alt, size_singleton.
    assert (size (list_to_set l ∖ {[x]} : gset jsstring) <= size (list_to_set l : gset jsstring))
      by (apply subseteq_size; set_solver).
    lia.
Qed.

(** On every finite navigation tree, flat or nested, a first call of
    [expandTreeItems] finishes within one pass more than the tree has
    nodes. *)
Lemma nav_tree_expansion_finishes (t : nav_tree) page :
  exists r s',
    expandTreeItems (S (length t)) page (State t [] ∅) = Some (r, s')
    /\ (r = Normal tt \/ exists e, r = Throw e).
Proof.
  refine (expandTreeItems_enough_fuel (W := nav_tree)
            (nav_labels_in (nav_labels t)) (nav_labels t)
            (nav_labels_in_respond _) (nav_labels_in_label _) page
            (S (length t)) (State t [] ∅) _ _).
  - apply nav_labels_in_own.
  - cbn [expandedItemsKeys]. rewrite difference_empty_L. unfold nav_labels.
    pose proof (size_list_to_set_le (nav_label <$> t)) as Hle.
    rewrite length_fmap in Hle. lia.
Qed.

(** The nested tree: the first pass opens "A", the second "A.1", the third
    finds nothing new; all four nodes are shown afterwards, and a second
    call clicks nothing. *)
Example nav_nested_expansion :
  let r := expandTreeItems 3 1 (State nav_nested [] ∅) in
  completion_of r = Some (Normal tt)
  /\ icon_clicks (trace_of r) = [js "A"; js "A.1"]
  /\ match r with
     | Some (_, s) =>
         nav_visible (world s) = [0; 1; 2; 3]
         /\ icon_clicks (trace_of (expandTreeItems 3 1 (State (world s) [] (expandedItemsKeys s))))
            = []
     | None => False
     end.
Proof. vm_compute. tauto. Qed.

(** The flat tree: no expand affordance, and the call ends by the timeout. *)
Example nav_flat_expansion :
  completion_of (expandTreeItems 3 1 (State nav_flat [] ∅)) = Some (Throw TimeoutError).
Proof. reflexivity. Qed.


Lemma expand_clicks_each_label_once_witness :
  match expandTreeItems 3 1 (State nav_nested [] ∅) with
  | Some (r, s') =>
      exists evs,
        trace s' = [] ++ evs
        /\ NoDup (icon_clicks evs)
        /\ (forall label, label ∈ (∅ : gset jsstring) -> label ∉ icon_clicks evs)
        /\ expandedItemsKeys s' = ∅ ∪ list_to_set (icon_clicks evs)
  | None => False
  end
  /\ NoDup (icon_clicks (trace_of (script 5 true (Some (js "Demo")) (start tape_demo)))).
Proof.
  split.
  - destruct (expandTreeItems 3 1 (State nav_nested [] ∅)) as [[r s']|] eqn:Hrun.
    + exact (proj1 (expand_clicks_each_label_once (W := nav_tree)) 3 1
               (State nav_nested [] ∅) r s' Hrun).
    + vm_compute in Hrun. discriminate Hrun.
  - destruct (script 5 true (Some (js "Demo")) (start tape_demo)) as [[r s']|] eqn:Hrun.
    + exact (proj2 (expand_clicks_each_label_once (W := tape)) 5 true
               (Some (js "Demo")) tape_demo r s' Hrun).
    + constructor.
Defined.

Lemma print_timeout_keeps_exported_witness :
  completion_of
    (exportItemToPDF 0 1 30 0
       (emit (Console Log (MsgProcessing (0 + 1) (length [30; 31])))
          (start (tape_item_print_timeout 2 ++ tape_item_no_menu))))
    = Some (Normal exported)
  /\ exists r s',
       run_loop 0 1 [30; 31] 2 0 0 0
         (start (tape_item_print_timeout 2 ++ tape_item_no_menu)) = Some (r, s')
       /\ In (Warn, MsgPrintNotTriggered 1) (console_lines (trace s'))
       /\ In (Log, MsgProcessing 2 2) (console_lines (trace s'))
       /\ forall successCount skippedCount,
            r = Normal (successCount, skippedCount) -> 1 <= successCount.
Proof.
  edestruct (print_timeout_keeps_exported (W := tape) 0 1 [30; 31] 1 0 0 0 30
               [(40, Some (js "Delete"))] 41 (Some (js "  Export to PDF ")) [] 2
               (start (tape_item_print_timeout 2 ++ tape_item_no_menu)))
    as (Hexport & r & s' & evs & Hrun & _ & _ & _ & Hcount & _);
    [first [ reflexivity
           | (eexists; split; reflexivity)
           | (intros entry Hin; apply list_elem_of_singleton in Hin as ->; reflexivity) ]..|].
  split; [exact (f_equal completion_of Hexport)|].
  exists r, s'. split; [exact Hrun|].
  split; [|split; [|intros sc kc Hr; apply (Hcount sc kc Hr)]];
    vm_compute in Hrun; injection Hrun as <- <-; vm_compute; tauto.
Defined.


Lemma findPDFOption_first_match_witness :
  (exists r s', findPDFOption 1 (start (drop 4 tape_menu_no_pdf)) = Some (Normal r, s')
                /\ first_PDF_entry
                     [(40, Some (js "Delete")); (41, Some (js " Export as pdf "))] r)
  /\ exists s', exportItemToPDF 0 1 30 0 (start tape_menu_no_pdf)
                = Some (Normal skipped, emit (Console Warn (MsgSkipNoPDF (0 + 1))) s').
Proof.
  destruct (findPDFOption_first_match (W := tape) 0 1 30 0
              [(40, Some (js "Delete")); (41, Some (js " Export as pdf "))]
              (start tape_menu_no_pdf)
              VUndefined VUndefined VUndefined VUndefined
              (drop 1 tape_menu_no_pdf) (drop 2 tape_menu_no_pdf)
              (drop 3 tape_menu_no_pdf) (drop 4 tape_menu_no_pdf))
    as [Hfind Hskip]; [reflexivity..| |].
  - eexists. split; [reflexivity|]. cbn.
    eexists. split; [reflexivity|]. eexists. split; [reflexivity|]. exact I.
  - split.
    + apply Hfind. reflexivity.
    + apply Hskip. intros e He. rewrite is_PDF_entry_includes.
      apply elem_of_cons in He as [-> | He]; [vm_compute; discriminate|].
      apply list_elem_of_singleton in He as ->. vm_compute. discriminate.
Defined.



(** * The further properties at concrete inputs *)

Lemma run_outcome_by_try_block_witness :
  exists r s' evs,
    run 5 (js "Demo") (start tape_workspace_missing) = Some (r, s')
    /\ trace s' = [] ++ evs
    /\ r = Exit 1 /\ context_closes evs = 0
    /\ last evs = Some (Console Err (MsgUnexpected TimeoutError)).
Proof.
  eapply (run_outcome_by_try_block (W := tape) 5 (js "Demo")
            (start tape_workspace_missing) 0 _ (Throw TimeoutError) _).
  - reflexivity.
  - reflexivity.
Defined.

Lemma launch_rejection_leaves_run_witness :
  run 5 (js "Demo") (start [Rejected (DriverError 3)])
    = Some (Throw (DriverError 3),
            State [] ([] ++ [Console Log MsgLaunching; Call LaunchPersistentContext]) ∅)
  /\ script 5 true (Some (js "Demo")) (start [Rejected (DriverError 3)])
     = Some (Throw (DriverError 3),
             State [] ([] ++ [Console Log MsgLaunching; Call LaunchPersistentContext]) ∅).
Proof.
  apply (launch_rejection_leaves_run (W := tape) 5 _ _ (start [Rejected (DriverError 3)])
           (DriverError 3) []).
  reflexivity.
Defined.

Lemma options_menu_failure_is_skipped_witness :
  exists s2 evs,
    exportItemToPDF_menu 1 0
      (State [Rejected TimeoutError; ok]
         ([] ++ [Console Log (MsgClickingItem (0 + 1)); Call (HandleClick 30)]) ∅)
      = Some (Normal false, s2)
    /\ trace s2 = ([] ++ [Console Log (MsgClickingItem (0 + 1)); Call (HandleClick 30)]) ++ evs
    /\ calls evs = [WaitForSelector 1 SEL_MORE_OPTIONS (Some 10000%N)]
    /\ last evs = Some (Console Warn (MsgSkipNoMenu (0 + 1)))
    /\ exportItemToPDF 0 1 30 0 (start tape_item_no_menu) = Some (Normal skipped, s2).
Proof.
  destruct (options_menu_failure_is_skipped (W := tape) 0 1 30 0 (start tape_item_no_menu)
              VUndefined [Rejected TimeoutError; ok])
    as (b & s2 & evs & Hmenu & Ht & _ & _ & Hfalse & Hfirst & _); [reflexivity|].
  destruct (Hfirst TimeoutError [ok]) as (-> & _ & Hcalls); [reflexivity|].
  destruct (Hfalse eq_refl) as [Hlast Hskip].
  exists s2, evs. split; [exact Hmenu|]. split; [exact Ht|]. split; [exact Hcalls|].
  split; [exact Hlast | exact Hskip].
Defined.

Lemma exportItemToPDF_throws_only_unguarded_witness :
  exists evs c,
    trace_of (exportItemToPDF 0 1 30 0 (start tape_popup_timeout)) = [] ++ evs
    /\ last evs = Some (Call c) /\ unguarded_call c = true
    /\ exported_lines evs = 0 /\ skipped_lines evs = 0.
Proof.
  destruct (exportItemToPDF 0 1 30 0 (start tape_popup_timeout)) as [[[o|e|c] s']|] eqn:Hrun;
    [vm_compute in Hrun; discriminate Hrun | | vm_compute in Hrun; discriminate Hrun
     | vm_compute in Hrun; discriminate Hrun].
  exact (exportItemToPDF_throws_only_unguarded (W := tape) 0 1 30 0
           (start tape_popup_timeout) e s' Hrun).
Defined.

Lemma findPDFOption_reads_up_to_match_witness :
  exists r s' n,
    findPDFOption 1
      (start [Resolved (VHandles [40; 41; 42]);
              resolved_text "Delete"; resolved_text " Export to PDF ";
              resolved_text "Rename"])
      = Some (Normal r, s')
    /\ trace s' = [] ++ Call (QueryAll 1 SEL_MENUITEM)
                   :: ((fun item => Call (TextContent item)) <$> take n [40; 41; 42])
    /\ match r with
       | Some item => 1 <= n /\ [40; 41; 42] !! (n - 1) = Some item
       | None => n = 3
       end.
Proof.
  apply (findPDFOption_reads_up_to_match (W := tape) 1
           [(40, Some (js "Delete")); (41, Some (js " Export to PDF "));
            (42, Some (js "Rename"))]).
  eexists. split; [reflexivity|]. cbn.
  eexists. split; [reflexivity|]. eexists. split; [reflexivity|].
  eexists. split; [reflexivity|]. exact I.
Defined.

Lemma expand_settle_failure_contained_witness :
  exists r s' evs,
    expandTreeItems_loop 1 [20] false
      (start [resolved_label " A "; ok; Rejected (DriverError 7)])
      = Some (r, s')
    /\ expandTreeItems_loop 1 [] true
         (State []
            ([] ++ [Call (ParentTextContent 20);
                    Console Log (MsgExpanding (js "A"));
                    Call (IconClick 20 (js "A"));
                    Call (WaitForTimeout 1 500);
                    Console Err (MsgErrorExpanding (js "A") (DriverError 7))])
            ({[js "A"]} ∪ ∅))
       = Some (r, s')
    /\ trace s' = ([] ++ [Call (ParentTextContent 20);
                          Console Log (MsgExpanding (js "A"));
                          Call (IconClick 20 (js "A"));
                          Call (WaitForTimeout 1 500);
                          Console Err (MsgErrorExpanding (js "A") (DriverError 7))])
                  ++ evs
    /\ js "A" ∈ expandedItemsKeys s'
    /\ (r = Normal true
        \/ exists e' icon',
             r = Throw e' /\ icon' ∈ ([] : list handle)
             /\ last evs = Some (Call (ParentTextContent icon')))
    /\ (([] : list handle) = [] -> r = Normal true
        /\ s' = State []
                  ([] ++ [Call (ParentTextContent 20);
                          Console Log (MsgExpanding (js "A"));
                          Call (IconClick 20 (js "A"));
                          Call (WaitForTimeout 1 500);
                          Console Err (MsgErrorExpanding (js "A") (DriverError 7))])
                  ({[js "A"]} ∪ ∅)).
Proof.
  apply (expand_settle_failure_contained (W := tape) 1 20 [] false
           (start [resolved_label " A "; ok; Rejected (DriverError 7)])
           (Some (Some (js " A "))) VUndefined (DriverError 7)
           [ok; Rejected (DriverError 7)] [Rejected (DriverError 7)] []).
  - reflexivity.
  - cbn. apply not_elem_of_empty.
  - reflexivity.
  - reflexivity.
Defined.

Lemma expandTreeItems_nothing_new_witness :
  exists r s' evs,
    expandTreeItems 1 1 (State nav_nested [] (nav_labels nav_nested)) = Some (r, s')
    /\ trace s' = [] ++ evs
    /\ icon_clicks evs = []
    /\ expandedItemsKeys s' = nav_labels nav_nested
    /\ (r = Normal tt /\ last evs = Some (Console Log MsgAllExpanded)
        \/ exists e, r = Throw e).
Proof.
  apply (expandTreeItems_nothing_new (W := nav_tree)
           (nav_labels_in (nav_labels nav_nested)) 1
           (State nav_nested [] (nav_labels nav_nested)) 0).
  - apply nav_labels_in_respond.
  - apply nav_labels_in_label.
  - apply nav_labels_in_own.
Defined.

Lemma expandTreeItems_memo_bounds_witness :
  match expandTreeItems 5 1 (State nav_nested [] ∅) with
  | Some (r, s') =>
      (∅ : gset jsstring) ⊆ expandedItemsKeys s'
      /\ expandedItemsKeys s' ⊆ ∅ ∪ nav_labels nav_nested
      /\ length (icon_clicks (drop (length ([] : list event)) (trace s')))
         <= size (nav_labels nav_nested ∖ ∅)
  | None => False
  end.
Proof.
  destruct (expandTreeItems 5 1 (State nav_nested [] ∅)) as [[r s']|] eqn:Hrun.
  - exact (expandTreeItems_memo_bounds (W := nav_tree)
             (nav_labels_in (nav_labels nav_nested)) (nav_labels nav_nested)
             5 1 (State nav_nested [] ∅) r s'
             (nav_labels_in_respond _) (nav_labels_in_label _)
             (nav_labels_in_own _) Hrun).
  - vm_compute in Hrun. discriminate Hrun.
Defined.

Lemma tape_labels_in_respond (U : gset jsstring) c (w : tape) :
  tape_labels_in U w -> tape_labels_in U (respond c w).2.
Proof.
  intros Hw. destruct w as [|r w]; [exact Hw|]. cbn.
  apply Forall_cons in Hw as [_ Hw]. exact Hw.
Qed.

Lemma tape_labels_in_label (U : gset jsstring) icon (w : tape) parent w' :
  tape_labels_in U w ->
  respond (ParentTextContent icon) w = (Resolved (VParentText parent), w') ->
  parent_label parent ∈ U.
Proof.
  intros Hw Hr. destruct w as [|r w]; [discriminate|]. cbn in Hr.
  injection Hr as -> _. apply Forall_cons in Hw as [Hr _]. exact (Hr parent eq_refl).
Qed.

Lemma startup_checks_guard_the_launch_witness :
  script 5 false (Some (js "Demo")) (start tape_demo)
    = Some (Exit 1, emit (Console Err MsgChromeNotFound) (start tape_demo))
  /\ script 5 true None (start tape_demo)
     = Some (Exit 1, emit (Console Err MsgUsage) (start tape_demo))
  /\ exists r s' rest,
       script 5 true (Some (js "Demo")) (start tape_demo) = Some (r, s')
       /\ trace s' = [] ++ Console Log MsgLaunching :: Call LaunchPersistentContext :: rest.
Proof.
  destruct (startup_checks_guard_the_launch (W := tape) 5 (start tape_demo))
    as (Hchrome & Husage & _ & _ & Hfinishes).
  split; [exact (Hchrome (Some (js "Demo")))|]. split; [exact Husage|].
  apply (Hfinishes (tape_labels_in {[js "A"]}) {[js "A"]}).
  - apply tape_labels_in_respond.
  - apply tape_labels_in_label.
  - cbv [start world tape_demo tape_open tape_expand_A tape_items tape_item_ok tape_menu
         app resolved_label resolved_text ok].
    repeat (apply Forall_cons;
            split; [intros parent Hp;
                    first [discriminate Hp
                          | injection Hp as <-; apply elem_of_singleton; reflexivity]|]).
    constructor.
  - cbn [expandedItemsKeys start]. rewrite difference_empty_L, size_singleton. lia.
Defined.
